(** * Remote project synchronisation of the codewind installer (actions/project.go)

    Shallow embedding of [syncFiles], [BindProject], [SyncProject],
    [completeRemotebind] and [completeUpload], together with the content
    pipeline applied to every uploaded file: [json.Marshal] of the file as a
    Go string, [zlib.NewWriter] compression and [base64.StdEncoding]. *)

From Stdlib Require Import ZArith List String Ascii Bool Lia.
Import ListNotations.

Local Open Scope Z_scope.

(** ** Bytes *)

Abbreviation byte := Byte.byte.

(** [uint(b)] for a Go byte. *)
Definition bz (b : byte) : Z := Z.of_N (Byte.to_N b).

(** [byte(z)]: Go's conversion to [byte] keeps the low eight bits. *)
Definition zb (z : Z) : byte :=
  match Byte.of_N (Z.to_N (z mod 256)) with Some b => b | None => Byte.x00 end.

(** The bytes of an ASCII Go string literal. *)
Definition lit (s : string) : list byte := list_byte_of_string s.

(** ** Module utf8 of the Go library: [DecodeRune], [EncodeRune], [Valid] *)

Module Utf8.

Definition RuneError : Z := 0xFFFD.
Definition RuneSelf : Z := 0x80.
Definition MaxRune : Z := 0x10FFFF.
Definition maskx : Z := 0x3F.
Definition mask2 : Z := 0x1F.
Definition mask3 : Z := 0x0F.
Definition mask4 : Z := 0x07.
Definition locb : Z := 0x80.
Definition hicb : Z := 0xBF.

(** The [first] table and [acceptRanges] for a leading byte [p0 >= 0x80]:
    the sequence size and the accepted range of the second byte; [None]
    is the entry [xx] (invalid leading byte). *)
Definition first_info (p0 : Z) : option (nat * Z * Z) :=
  if (0xC2 <=? p0) && (p0 <=? 0xDF) then Some (2%nat, 0x80, 0xBF)
  else if p0 =? 0xE0 then Some (3%nat, 0xA0, 0xBF)
  else if (0xE1 <=? p0) && (p0 <=? 0xEC) then Some (3%nat, 0x80, 0xBF)
  else if p0 =? 0xED then Some (3%nat, 0x80, 0x9F)
  else if (0xEE <=? p0) && (p0 <=? 0xEF) then Some (3%nat, 0x80, 0xBF)
  else if p0 =? 0xF0 then Some (4%nat, 0x90, 0xBF)
  else if (0xF1 <=? p0) && (p0 <=? 0xF3) then Some (4%nat, 0x80, 0xBF)
  else if p0 =? 0xF4 then Some (4%nat, 0x80, 0x8F)
  else None.

Definition out_of (lo hi b : Z) : bool := (b <? lo) || (hi <? b).

(** [utf8.DecodeRune]. *)
Definition DecodeRune (p : list byte) : Z * nat :=
  match p with
  | [] => (RuneError, 0%nat)
  | c0 :: _ =>
    let p0 := bz c0 in
    if p0 <? RuneSelf then (p0, 1%nat) else
    match first_info p0 with
    | None => (RuneError, 1%nat)
    | Some (sz, lo, hi) =>
      if (List.length p <? sz)%nat then (RuneError, 1%nat) else
      let b1 := bz (nth 1 p Byte.x00) in
      if out_of lo hi b1 then (RuneError, 1%nat) else
      if (sz <=? 2)%nat then
        (Z.lor (Z.shiftl (Z.land p0 mask2) 6) (Z.land b1 maskx), 2%nat) else
      let b2 := bz (nth 2 p Byte.x00) in
      if out_of locb hicb b2 then (RuneError, 1%nat) else
      if (sz <=? 3)%nat then
        (Z.lor (Z.lor (Z.shiftl (Z.land p0 mask3) 12) (Z.shiftl (Z.land b1 maskx) 6))
               (Z.land b2 maskx), 3%nat) else
      let b3 := bz (nth 3 p Byte.x00) in
      if out_of locb hicb b3 then (RuneError, 1%nat) else
      (Z.lor (Z.lor (Z.lor (Z.shiftl (Z.land p0 mask4) 18) (Z.shiftl (Z.land b1 maskx) 12))
                    (Z.shiftl (Z.land b2 maskx) 6)) (Z.land b3 maskx), 4%nat)
    end
  end.

(** [utf8.EncodeRune]. *)
Definition EncodeRune (r : Z) : list byte :=
  if (0 <=? r) && (r <=? 0x7F) then [zb r]
  else if (0 <=? r) && (r <=? 0x7FF) then
    [zb (Z.lor 0xC0 (Z.shiftr r 6)); zb (Z.lor 0x80 (Z.land r maskx))]
  else
    let r := if (r <? 0) || (MaxRune <? r) || ((0xD800 <=? r) && (r <=? 0xDFFF))
             then RuneError else r in
    if r <=? 0xFFFF then
      [zb (Z.lor 0xE0 (Z.shiftr r 12)); zb (Z.lor 0x80 (Z.land (Z.shiftr r 6) maskx));
       zb (Z.lor 0x80 (Z.land r maskx))]
    else
      [zb (Z.lor 0xF0 (Z.shiftr r 18)); zb (Z.lor 0x80 (Z.land (Z.shiftr r 12) maskx));
       zb (Z.lor 0x80 (Z.land (Z.shiftr r 6) maskx)); zb (Z.lor 0x80 (Z.land r maskx))].

(** [utf8.Valid]: no call of [DecodeRune] along the string reports an
    invalid byte ([RuneError] of size 1).  [fuel] is the length of the
    string; every step consumes at least one byte. *)
Fixpoint valid_aux (fuel : nat) (s : list byte) : bool :=
  match fuel, s with
  | _, [] => true
  | O, _ :: _ => false
  | S f, c :: rest =>
    if bz c <? RuneSelf then valid_aux f rest
    else let (r, size) := DecodeRune s in
         if (r =? RuneError) && (size =? 1)%nat then false
         else valid_aux f (skipn size s)
  end.

Definition Valid (s : list byte) : bool := valid_aux (List.length s) s.

End Utf8.

(** ** [json.Marshal] of a Go string ([encodeState.string], escapeHTML on) *)

Module Json.
Import Utf8.

Definition hex : list byte := lit "0123456789abcdef".
Definition hex_digit (n : Z) : byte := nth (Z.to_nat n) hex Byte.x00.

Definition quote : byte := zb 0x22.
Definition backslash : byte := zb 0x5C.

(** [htmlSafeSet[b]] for an ASCII byte [b]. *)
Definition htmlSafe (b : Z) : bool :=
  (0x20 <=? b) && negb (b =? 0x22) && negb (b =? 0x5C)
  && negb (b =? 0x3C) && negb (b =? 0x3E) && negb (b =? 0x26).

(** The escape written for an ASCII byte outside [htmlSafeSet]. *)
Definition escape_ascii (c : byte) : list byte :=
  let b := bz c in
  backslash ::
  (if (b =? 0x5C) || (b =? 0x22) then [c]
   else if b =? 0x0A then lit "n"
   else if b =? 0x0D then lit "r"
   else if b =? 0x09 then lit "t"
   else lit "u00" ++ [hex_digit (Z.shiftr b 4); hex_digit (Z.land b 0xF)]).

(** The loop of [encodeState.string]; the batching of unescaped bytes
    through [start] only groups writes, so it is written byte by byte. *)
Fixpoint string_body (fuel : nat) (s : list byte) : list byte :=
  match fuel, s with
  | _, [] => []
  | O, _ :: _ => []
  | S f, c :: rest =>
    if bz c <? RuneSelf then
      (if htmlSafe (bz c) then [c] else escape_ascii c) ++ string_body f rest
    else
      let (r, size) := DecodeRune s in
      if (r =? RuneError) && (size =? 1)%nat then
        lit "\ufffd" ++ string_body f (skipn size s)
      else if (r =? 0x2028) || (r =? 0x2029) then
        lit "\u202" ++ [hex_digit (Z.land r 0xF)] ++ string_body f (skipn size s)
      else firstn size s ++ string_body f (skipn size s)
  end.

(** [json.Marshal(string(b))]; it never fails on a string. *)
Definition Marshal_string (s : list byte) : list byte :=
  quote :: string_body (List.length s) s ++ [quote].

End Json.

(** ** The receiving side of the content pipeline

    Modelled from the spec: the decoder of the remote build engine, which
    is not part of this repository ("decoding reverses the three steps in
    the opposite order").  A JSON string literal is read back byte by byte:
    escapes are undone, [\uXXXX] is written as the UTF-8 encoding of its
    code point, other bytes are copied. *)

Module JsonDecode.
Import Utf8 Json.

(** Value of an ASCII hexadecimal digit. *)
Definition hex_value (c : byte) : option Z :=
  let b := bz c in
  if (0x30 <=? b) && (b <=? 0x39) then Some (b - 0x30)
  else if (0x61 <=? b) && (b <=? 0x66) then Some (b - 0x61 + 10)
  else if (0x41 <=? b) && (b <=? 0x46) then Some (b - 0x41 + 10)
  else None.

Definition getu4 (h1 h2 h3 h4 : byte) : option Z :=
  match hex_value h1, hex_value h2, hex_value h3, hex_value h4 with
  | Some a, Some b, Some c, Some d => Some (((a * 16 + b) * 16 + c) * 16 + d)
  | _, _, _, _ => None
  end.

(** The literal after its opening quote; the closing quote must end it.
    Surrogate escapes, which [Marshal_string] never writes, are refused. *)
Fixpoint unquote_body (s : list byte) : option (list byte) :=
  match s with
  | [] => None
  | c :: r =>
    let b := bz c in
    if b =? 0x22 then match r with [] => Some [] | _ :: _ => None end
    else if b =? 0x5C then
      match r with
      | [] => None
      | e :: r' =>
        let x := bz e in
        if (x =? 0x22) || (x =? 0x5C) || (x =? 0x2F) then option_map (cons e) (unquote_body r')
        else if x =? 0x62 then option_map (cons (zb 0x08)) (unquote_body r')
        else if x =? 0x66 then option_map (cons (zb 0x0C)) (unquote_body r')
        else if x =? 0x6E then option_map (cons (zb 0x0A)) (unquote_body r')
        else if x =? 0x72 then option_map (cons (zb 0x0D)) (unquote_body r')
        else if x =? 0x74 then option_map (cons (zb 0x09)) (unquote_body r')
        else if x =? 0x75 then
          match r' with
          | h1 :: h2 :: h3 :: h4 :: r'' =>
            match getu4 h1 h2 h3 h4 with
            | Some cp =>
              if (0xD800 <=? cp) && (cp <=? 0xDFFF) then None
              else option_map (app (EncodeRune cp)) (unquote_body r'')
            | None => None
            end
          | _ => None
          end
        else None
      end
    else if b <? 0x20 then None
    else option_map (cons c) (unquote_body r)
  end.

Definition Unmarshal_string (s : list byte) : option (list byte) :=
  match s with
  | c :: r => if bz c =? 0x22 then unquote_body r else None
  | [] => None
  end.

End JsonDecode.

(** ** [base64.StdEncoding] *)

Module Base64.

Definition encodeStd : string :=
  "ABCDEFGHIJKLMNOPQRSTUVWXYZabcdefghijklmnopqrstuvwxyz0123456789+/".

Definition enc (n : Z) : ascii := nth (Z.to_nat n) (list_ascii_of_string encodeStd) "A"%char.

Definition StdPadding : ascii := "="%char.

(** The loop of [Encoding.Encode]: full groups of three bytes, then the
    remaining one or two bytes with padding. *)
Fixpoint encode (src : list byte) : list ascii :=
  match src with
  | b0 :: b1 :: b2 :: rest =>
    let val := Z.lor (Z.lor (Z.shiftl (bz b0) 16) (Z.shiftl (bz b1) 8)) (bz b2) in
    [enc (Z.land (Z.shiftr val 18) 0x3F); enc (Z.land (Z.shiftr val 12) 0x3F);
     enc (Z.land (Z.shiftr val 6) 0x3F); enc (Z.land val 0x3F)] ++ encode rest
  | [b0; b1] =>
    let val := Z.lor (Z.shiftl (bz b0) 16) (Z.shiftl (bz b1) 8) in
    [enc (Z.land (Z.shiftr val 18) 0x3F); enc (Z.land (Z.shiftr val 12) 0x3F);
     enc (Z.land (Z.shiftr val 6) 0x3F); StdPadding]
  | [b0] =>
    let val := Z.shiftl (bz b0) 16 in
    [enc (Z.land (Z.shiftr val 18) 0x3F); enc (Z.land (Z.shiftr val 12) 0x3F);
     StdPadding; StdPadding]
  | [] => []
  end.

(** [EncodeToString]. *)
Definition EncodeToString (src : list byte) : string := string_of_list_ascii (encode src).

(** Decoding, modelled from the spec (the receiving side): the position
    of a character in the alphabet. *)
Fixpoint index_of (c : ascii) (l : list ascii) (i : Z) : option Z :=
  match l with
  | [] => None
  | d :: l' => if Ascii.eqb c d then Some i else index_of c l' (i + 1)
  end.

Definition dec (c : ascii) : option Z := index_of c (list_ascii_of_string encodeStd) 0.

Fixpoint decode (s : list ascii) : option (list byte) :=
  match s with
  | [] => Some []
  | c0 :: c1 :: c2 :: c3 :: rest =>
    match dec c0, dec c1 with
    | Some d0, Some d1 =>
      if Ascii.eqb c2 StdPadding then
        if Ascii.eqb c3 StdPadding then
          match rest with
          | [] => Some [zb (Z.shiftr (Z.lor (Z.shiftl d0 18) (Z.shiftl d1 12)) 16)]
          | _ :: _ => None
          end
        else None
      else
        match dec c2 with
        | None => None
        | Some d2 =>
          let v := Z.lor (Z.lor (Z.shiftl d0 18) (Z.shiftl d1 12)) (Z.shiftl d2 6) in
          if Ascii.eqb c3 StdPadding then
            match rest with
            | [] => Some [zb (Z.shiftr v 16); zb (Z.shiftr v 8)]
            | _ :: _ => None
            end
          else
            match dec c3 with
            | None => None
            | Some d3 =>
              let v := Z.lor v d3 in
              option_map (app [zb (Z.shiftr v 16); zb (Z.shiftr v 8); zb v]) (decode rest)
            end
        end
    | _, _ => None
    end
  | _ => None
  end.

Definition DecodeString (s : string) : option (list byte) := decode (list_ascii_of_string s).

End Base64.

(** ** [compress/zlib]

    The zlib framing written by [zlib.Writer] at the default level: the
    two header bytes, the DEFLATE stream of the data and the big-endian
    Adler-32 checksum.  The DEFLATE compressor itself is a parameter: a
    codec whose inflater reads one DEFLATE stream back and returns the
    input that follows it. *)

Module Zlib.

Record deflate_codec := {
  deflate : list byte -> list byte;
  inflate : list byte -> option (list byte * list byte)
}.

(** An inflater that undoes its deflater, whatever bytes follow. *)
Definition inflate_law (c : deflate_codec) : Prop :=
  forall x rest, inflate c (deflate c x ++ rest) = Some (x, rest).

(** [Writer.writeHeader] for [DefaultCompression] and no dictionary. *)
Definition header : list byte :=
  let b0 := 0x78 in
  let b1 := Z.shiftl 2 6 in
  [zb b0; zb (b1 + (31 - (Z.shiftl b0 8 + b1) mod 31))].

(** [hash/adler32]. *)
Definition mod_adler : Z := 65521.

Definition adler32 (d : list byte) : Z :=
  let '(s1, s2) :=
    fold_left (fun '(s1, s2) x => let s1' := (s1 + bz x) mod mod_adler in
                                  (s1', (s2 + s1') mod mod_adler)) d (1, 0) in
  Z.lor (Z.shiftl s2 16) s1.

Definition be32 (v : Z) : list byte :=
  [zb (Z.shiftr v 24); zb (Z.shiftr v 16); zb (Z.shiftr v 8); zb v].

(** [zlib.NewWriter(&buffer)], [Write], [Close], [buffer.Bytes()]. *)
Definition compress (c : deflate_codec) (d : list byte) : list byte :=
  header ++ deflate c d ++ be32 (adler32 d).

(** Modelled from the spec: the receiving side's zlib reader (header
    check, inflate, checksum check). *)
Definition decompress (c : deflate_codec) (z : list byte) : option (list byte) :=
  match z with
  | cmf :: flg :: rest =>
    if ((bz cmf * 256 + bz flg) mod 31 =? 0) && (Z.land (bz cmf) 0xF =? 8)
       && (Z.land (bz flg) 0x20 =? 0) then
      match inflate c rest with
      | Some (d, trailer) =>
        if list_eq_dec Byte.byte_eq_dec trailer (be32 (adler32 d)) then Some d else None
      | None => None
      end
    else None
  | _ => None
  end.

(** A DEFLATE codec made of stored blocks only (BTYPE 00, the output of
    [flate] at [NoCompression]): blocks of at most 65535 bytes, the last
    one marked final. *)
Definition le16 (n : nat) : list byte := [zb (Z.of_nat n); zb (Z.shiftr (Z.of_nat n) 8)].

Definition max_stored : nat := 65535.

Fixpoint stored_blocks (fuel : nat) (x : list byte) : list byte :=
  match fuel with
  | O => []
  | S f =>
    if (List.length x <=? max_stored)%nat then
      zb 1 :: le16 (List.length x) ++ le16 (max_stored - List.length x) ++ x
    else
      zb 0 :: le16 max_stored ++ le16 0 ++ firstn max_stored x
           ++ stored_blocks f (skipn max_stored x)
  end.

Definition stored_deflate (x : list byte) : list byte := stored_blocks (S (List.length x)) x.

Fixpoint stored_inflate_aux (fuel : nat) (inp : list byte) : option (list byte * list byte) :=
  match fuel with
  | O => None
  | S f =>
    match inp with
    | hdr :: l0 :: l1 :: n0 :: n1 :: rest =>
      let len := bz l0 + 256 * bz l1 in
      let nlen := bz n0 + 256 * bz n1 in
      if (Z.land (bz hdr) 6 =? 0) && (nlen =? 65535 - len)
         && (Z.to_nat len <=? List.length rest)%nat then
        let data := firstn (Z.to_nat len) rest in
        let after := skipn (Z.to_nat len) rest in
        if Z.land (bz hdr) 1 =? 1 then Some (data, after)
        else match stored_inflate_aux f after with
             | Some (d, r) => Some (data ++ d, r)
             | None => None
             end
      else None
    | _ => None
    end
  end.

Definition stored_inflate (inp : list byte) : option (list byte * list byte) :=
  stored_inflate_aux (S (List.length inp)) inp.

Definition stored : deflate_codec :=
  {| deflate := stored_deflate; inflate := stored_inflate |}.

End Zlib.

(** ** The content pipeline of [syncFiles] and its inverse *)

Module Codec.

(** [json.Marshal(string(fileContent))], compressed, then
    [base64.StdEncoding.EncodeToString]. *)
Definition encode (c : Zlib.deflate_codec) (content : list byte) : string :=
  Base64.EncodeToString (Zlib.compress c (Json.Marshal_string content)).

(** Modelled from the spec: base64-decode, decompress, read the JSON string. *)
Definition decode (c : Zlib.deflate_codec) (msg : string) : option (list byte) :=
  match Base64.DecodeString msg with
  | Some z =>
    match Zlib.decompress c z with
    | Some j => JsonDecode.Unmarshal_string j
    | None => None
    end
  | None => None
  end.

End Codec.

(** *** Package [path] of the Go library *)

Module GoPath.

Definition slash : byte := zb 0x2F.
Definition dot : byte := zb 0x2E.

Definition is_slash (c : byte) : bool := Byte.eqb c slash.

(** [a == b] on Go strings. *)
Definition bytes_eqb (a b : list byte) : bool :=
  if list_eq_dec Byte.byte_eq_dec a b then true else false.

(** [for len(path) > 0 && path[len(path)-1] == '/' { path = path[0 : len(path)-1] }];
    the loop runs at most [len(path)] times. *)
Fixpoint strip_trailing (fuel : nat) (p : list byte) : list byte :=
  match fuel with
  | O => p
  | S f =>
    if (0 <? List.length p)%nat && is_slash (last p Byte.x00)
    then strip_trailing f (removelast p) else p
  end.

(** [lastSlash]: [i := len(s) - 1; for i >= 0 && s[i] != '/' { i-- }];
    [last_slash_below s i] runs the loop from [i - 1] down. *)
Fixpoint last_slash_below (s : list byte) (i : nat) : Z :=
  match i with
  | O => -1
  | S j => if is_slash (nth j s Byte.x00) then Z.of_nat j else last_slash_below s j
  end.

Definition lastSlash (s : list byte) : Z := last_slash_below s (List.length s).

(** [path.Base]. *)
Definition Base (path : list byte) : list byte :=
  if bytes_eqb path [] then lit "." else
  let path := strip_trailing (List.length path) path in
  let i := lastSlash path in
  let path := if 0 <=? i then skipn (Z.to_nat i + 1) path else path in
  if bytes_eqb path [] then lit "/" else path.

(** The [..] case of [Clean] when it can backtrack: [out.w--], then
    [for out.w > dotdot && out.index(out.w) != '/' { out.w-- }].  [out]
    is the written prefix of the buffer, so [out.index(out.w)] is the byte
    just dropped. *)
Fixpoint backtrack (fuel : nat) (out : list byte) (dropped : byte) (dotdot : nat) : list byte :=
  match fuel with
  | O => out
  | S f =>
    if (dotdot <? List.length out)%nat && negb (is_slash dropped)
    then backtrack f (removelast out) (last out Byte.x00) dotdot else out
  end.

(** The bytes of a path element: [for ; r < n && path[r] != '/'; r++]. *)
Fixpoint element (l : list byte) : list byte :=
  match l with
  | [] => []
  | c :: l' => if is_slash c then [] else c :: element l'
  end.

(** The main loop of [Clean] ([for r < n]); every round advances [r], so
    [len(path)] rounds suffice. *)
Fixpoint clean_loop (fuel : nat) (path : list byte) (rooted : bool) (r : nat)
    (out : list byte) (dotdot : nat) : list byte :=
  match fuel with
  | O => out
  | S f =>
    let n := List.length path in
    let path_at i := nth i path Byte.x00 in
    if (r <? n)%nat then
      if is_slash (path_at r) then
        (* empty path element *)
        clean_loop f path rooted (S r) out dotdot
      else if Byte.eqb (path_at r) dot && ((S r =? n)%nat || is_slash (path_at (S r))) then
        (* . element *)
        clean_loop f path rooted (S r) out dotdot
      else if Byte.eqb (path_at r) dot && Byte.eqb (path_at (S r)) dot
              && ((r + 2 =? n)%nat || is_slash (path_at (r + 2)%nat)) then
        (* .. element: remove to last / *)
        if (dotdot <? List.length out)%nat then
          clean_loop f path rooted (r + 2)
            (backtrack (List.length out) (removelast out) (last out Byte.x00) dotdot) dotdot
        else if negb rooted then
          let out' := (if (0 <? List.length out)%nat then out ++ [slash] else out) ++ [dot; dot] in
          clean_loop f path rooted (r + 2) out' (List.length out')
        else clean_loop f path rooted (r + 2) out dotdot
      else
        (* real path element: add slash if needed, then copy it *)
        let out := if (rooted && negb (List.length out =? 1)%nat)
                      || (negb rooted && negb (List.length out =? 0)%nat)
                   then out ++ [slash] else out in
        let e := element (skipn r path) in
        clean_loop f path rooted (r + List.length e) (out ++ e) dotdot
    else out
  end.

(** [path.Clean]. *)
Definition Clean (path : list byte) : list byte :=
  if bytes_eqb path [] then lit "." else
  let rooted := is_slash (nth 0 path Byte.x00) in
  let out := clean_loop (List.length path) path rooted (if rooted then 1 else 0)%nat
               (if rooted then [slash] else []) (if rooted then 1 else 0)%nat in
  if bytes_eqb out [] then lit "." else out.

(** [path.Join(a, b)]: the elements from the first non-empty one on,
    joined with slashes and cleaned; [""] when both are empty. *)
Definition Join (a b : list byte) : list byte :=
  if negb (bytes_eqb a []) then Clean (a ++ [slash] ++ b)
  else if negb (bytes_eqb b []) then Clean b
  else [].

End GoPath.

(** ** The synchronisation run: [syncFiles], [BindProject], [SyncProject] *)

Module Sync.

(** *** The file tree seen by [filepath.Walk] *)

(** The mode reported by [os.Lstat] for an entry that is not a directory. *)
Inductive kind := Regular | Symlink | OtherNonDir.

(** What [ioutil.ReadFile] returns: the data, or the data read before an
    error together with the error ([nil] data when the open fails). *)
Inductive read_result :=
| ReadOk (data : list byte)
| ReadErr (partial : list byte).

Definition read_data (r : read_result) : list byte :=
  match r with ReadOk d => d | ReadErr d => d end.

(** A directory entry.  [Dir name None]: [readDirNames] fails on it.
    [Gone name]: the entry is listed but [os.Lstat] fails on it (it
    disappeared during the walk).  A listing is in the order
    [readDirNames] returns it (sorted by name). *)
Inductive entry :=
| File (name : string) (k : kind) (mtime_ns : Z) (rd : read_result)
| Dir (name : string) (listing : option (list entry))
| Gone (name : string).

Definition entry_name (e : entry) : string :=
  match e with File n _ _ _ => n | Dir n _ => n | Gone n => n end.

(** [filepath.Join(dir, name)] on Unix: [path.Join], that is the two
    joined with a slash and cleaned ([""] when both are empty).  This is
    the path [filepath.Walk] passes for the entry [name] of the directory
    at [dir]. *)
Definition filepath_join (dir name : string) : string :=
  string_of_list_byte (GoPath.Join (list_byte_of_string dir) (list_byte_of_string name)).

(** [dir + "/" + name]: the string whose slice from [len(dir) + 1] is
    [name]; [filepath_join] gives it for a directory path and an entry
    name in plain form. *)
Definition join (dir name : string) : string := (dir ++ "/" ++ name)%string.

(** [s[i:]] on a Go string; [None] is the slice-bounds panic. *)
Definition slice_from (s : string) (i : nat) : option string :=
  if (i <=? String.length s)%nat
  then Some (string_of_list_ascii (skipn i (list_ascii_of_string s)))
  else None.

(** *** Messages (the structs of project.go) *)

Record BindRequest := {
  Language : string; ProjectType : string; Name : string; Path : string }.

Record BindEndRequest := { ProjectID : string }.

Record CompleteRequest := {
  FileList : list string; ModifiedList : list string; TimeStamp : Z }.

Record FileUploadMsg := {
  IsDirectory : bool; RelativePath : string; Message : string }.

(** The HTTP calls, in the order they are issued. *)
Inductive call :=
| CBegin (req : BindRequest)                         (* POST projects/remote-bind/start *)
| CUpload (projectId : string) (m : FileUploadMsg)   (* PUT projects/{id}/remote-bind/upload *)
| CBindEnd (projectId : string) (req : BindEndRequest) (* POST projects/{id}/remote-bind/end *)
| CUploadEnd (projectId : string) (req : CompleteRequest). (* POST projects/{id}/upload/end *)

(** The outcome of [client.Do] / [http.Post]: an error (and a nil
    response) or a response with its status code. *)
Inductive response := NetErr | Status (code : Z).

(** The body of the start response, as [json.Unmarshal] and the type
    assertion [projectInfo["projectID"].(string)] see it. *)
Inductive start_body := BodyNotJson | BodyNoProjectID | BodyProjectID (id : string).

(** The remote engine's answers. *)
Record net := {
  on_start : response * start_body;
  on_upload : FileUploadMsg -> response;
  on_end : response }.

(** *** A state monad with panics *)

Record st := { fileList : list string; modifiedList : list string; calls : list call }.

(** [None]: the run panicked (the process aborts). *)
Definition M (A : Type) : Type := st -> option A * st.

Definition ret {A} (a : A) : M A := fun s => (Some a, s).
Definition bind {A B} (m : M A) (k : A -> M B) : M B :=
  fun s => match m s with
           | (Some a, s') => k a s'
           | (None, s') => (None, s')
           end.
Definition panic {A} : M A := fun s => (None, s).

Notation "x <- m ;; k" := (bind m (fun x => k)) (at level 61, m at next level, right associativity).
Notation "m ;;; k" := (bind m (fun _ => k)) (at level 61, right associativity).

Definition get : M st := fun s => (Some s, s).
Definition add_file (rel : string) : M unit :=
  fun s => (Some tt, {| fileList := fileList s ++ [rel]; modifiedList := modifiedList s; calls := calls s |}).
Definition add_modified (rel : string) : M unit :=
  fun s => (Some tt, {| fileList := fileList s; modifiedList := modifiedList s ++ [rel]; calls := calls s |}).
Definition reset_lists : M unit :=
  fun s => (Some tt, {| fileList := []; modifiedList := []; calls := calls s |}).
Definition issue (c : call) : M unit :=
  fun s => (Some tt, {| fileList := fileList s; modifiedList := modifiedList s; calls := calls s ++ [c] |}).

Definition init : st := {| fileList := []; modifiedList := []; calls := [] |}.

Section Run.
Variable codec : Zlib.deflate_codec.
Variable n : net.

(** The walk function of [syncFiles], called on a non-directory entry
    (for a directory it returns [nil] without doing anything). *)
Definition visit_file (projectPath projectId : string) (synctime : Z)
    (path : string) (mtime_ns : Z) (rd : read_result) : M unit :=
  match slice_from path (String.length projectPath + 1) with
  | None => panic
  | Some relativePath =>
    add_file relativePath ;;;
    let modifiedmillis := Z.quot mtime_ns 1000000 in
    if modifiedmillis >? synctime then
      (* [err] of [ReadFile] is overwritten by that of [json.Marshal], nil *)
      let fileContent := read_data rd in
      add_modified relativePath ;;;
      let fileUploadBody := {| IsDirectory := false; RelativePath := relativePath;
                               Message := Codec.encode codec fileContent |} in
      issue (CUpload projectId fileUploadBody) ;;;
      match on_upload n fileUploadBody with
      | NetErr => panic        (* [resp.Status] on a nil response *)
      | Status _ => ret tt
      end
    else ret tt
  end.

(** [filepath.Walk] with a walk function that always returns nil. *)
Fixpoint walk (cb : string -> Z -> read_result -> M unit) (path : string) (e : entry)
    {struct e} : M unit :=
  match e with
  | File _ _ mtime rd => cb path mtime rd
  | Dir _ None => ret tt
  | Dir _ (Some es) =>
    (fix go (es : list entry) : M unit :=
       match es with
       | [] => ret tt
       | e' :: es' => walk cb (filepath_join path (entry_name e')) e' ;;; go es'
       end) es
  | Gone _ => panic     (* the walk function calls [IsDir] on a nil [FileInfo] *)
  end.

Definition syncFiles (projectPath projectId : string) (synctime : Z) (root : entry)
    : M (list string * list string) :=
  reset_lists ;;;
  walk (visit_file projectPath projectId synctime) projectPath root ;;;
  s <- get ;;
  ret (fileList s, modifiedList s).

Definition completeRemotebind (projectId : string) : M unit :=
  issue (CBindEnd projectId {| ProjectID := projectId |}) ;;;
  match on_end n with
  | NetErr => panic
  | Status _ => ret tt
  end.

Definition BindProject (projectPath name language buildType : string) (root : entry) : M unit :=
  let bindRequest := {| Language := language; Name := name; ProjectType := buildType;
                        Path := projectPath |} in
  issue (CBegin bindRequest) ;;;
  match on_start n with
  | (NetErr, _) => ret tt
  | (Status _, BodyNotJson) => panic
  | (Status _, BodyNoProjectID) => panic
  | (Status _, BodyProjectID projectID) =>
    syncFiles projectPath projectID 0 root ;;;
    completeRemotebind projectID
  end.

Definition completeUpload (projectId : string) (files modfiles : list string) (timestamp : Z)
    : M unit :=
  issue (CUploadEnd projectId {| FileList := files; ModifiedList := modfiles;
                                 TimeStamp := timestamp |}) ;;;
  match on_end n with
  | NetErr => panic
  | Status _ => ret tt
  end.

Definition SyncProject (projectPath projectID : string) (synctime : Z) (root : entry) : M unit :=
  lists <- syncFiles projectPath projectID synctime root ;;
  completeUpload projectID (fst lists) (snd lists) synctime.

End Run.

End Sync.

(** ** The walk as a list of events, and the claims' readings of the tree *)

Module Walk.
Import Sync.

(** What [filepath.Walk] hands to the walk function, in order: a
    non-directory entry with its path, or an entry whose [Lstat] fails. *)
Inductive event :=
| Visit (path : string) (mtime_ns : Z) (rd : read_result)
| Abort.

Fixpoint events (path : string) (e : entry) : list event :=
  match e with
  | File _ _ mtime rd => [Visit path mtime rd]
  | Dir _ None => []
  | Dir _ (Some es) => flat_map (fun c => events (filepath_join path (entry_name c)) c) es
  | Gone _ => [Abort]
  end.

Fixpoint run_events (cb : string -> Z -> read_result -> M unit) (evs : list event) : M unit :=
  match evs with
  | [] => ret tt
  | Visit p m rd :: evs' => cb p m rd ;;; run_events cb evs'
  | Abort :: _ => panic
  end.

(** The non-directory entries below an entry at relative path [rel]:
    relative path, mode, modification time, read result. *)
Fixpoint nondir_records (rel : string) (e : entry) : list (string * kind * Z * read_result) :=
  match e with
  | File _ k mtime rd => [(rel, k, mtime, rd)]
  | Dir _ None => []
  | Dir _ (Some es) => flat_map (fun c => nondir_records (rel ++ "/" ++ entry_name c) c) es
  | Gone _ => []
  end.

(** The records of a project root, relative to it. *)
Definition tree_records (root : entry) : list (string * kind * Z * read_result) :=
  match root with
  | Dir _ (Some es) => flat_map (fun c => nondir_records (entry_name c) c) es
  | _ => []
  end.

Definition rec_path (r : string * kind * Z * read_result) : string :=
  let '(p, _, _, _) := r in p.

(** Every non-directory entry reached by descent from the root. *)
Definition nondir_paths (root : entry) : list string := map rec_path (tree_records root).


(** The engine's answers with every HTTP status replaced by 200. *)
Definition norm_response (r : response) : response :=
  match r with NetErr => NetErr | Status _ => Status 200 end.

Definition norm_net (n : net) : net :=
  {| on_start := (norm_response (fst (on_start n)), snd (on_start n));
     on_upload := fun m => norm_response (on_upload n m);
     on_end := norm_response (on_end n) |}.

(** The upload messages among the calls. *)
Definition uploads (cs : list call) : list FileUploadMsg :=
  flat_map (fun c => match c with CUpload _ m => [m] | _ => [] end) cs.

End Walk.

(** ** Invariants, engine answers and trees used in the statements *)

Module Props.
Import Sync Walk.

(** Induction over entries, with the hypothesis on every child of a listed
    directory. *)
Section EntryInd.
Variable P : entry -> Prop.
Hypothesis HFile : forall nm k m rd, P (File nm k m rd).
Hypothesis HNone : forall nm, P (Dir nm None).
Hypothesis HSome : forall nm es, Forall P es -> P (Dir nm (Some es)).
Hypothesis HGone : forall nm, P (Gone nm).

Fixpoint entry_ind' (e : entry) : P e :=
  match e with
  | File nm k m rd => HFile nm k m rd
  | Dir nm None => HNone nm
  | Dir nm (Some es) =>
    HSome nm es ((fix go (es : list entry) : Forall P es :=
                    match es with
                    | [] => Forall_nil _
                    | e' :: es' => Forall_cons _ (entry_ind' e') (go es')
                    end) es)
  | Gone nm => HGone nm
  end.
End EntryInd.

(** Walk events that reach the walk function with an entry. *)
Definition is_visit (ev : event) : bool := match ev with Visit _ _ _ => true | Abort => false end.

Definition visit_of (pp : string) (r : string * kind * Z * read_result) : event :=
  let '(p, _, m, rd) := r in Visit (join pp p) m rd.

(** The state after the begin call, and at the start of [syncFiles]. *)
Definition begun (s : st) (req : BindRequest) : st :=
  {| fileList := fileList s; modifiedList := modifiedList s; calls := calls s ++ [CBegin req] |}.

Definition fresh (s : st) : st := {| fileList := []; modifiedList := []; calls := calls s |}.

(** Engines: one answering 200 everywhere, one failing every upload with
    HTTP status 500. *)
Definition ok_net : net :=
  {| on_start := (Status 200, BodyProjectID "p"); on_upload := fun _ => Status 200;
     on_end := Status 200 |}.

Definition status500_net : net :=
  {| on_start := (Status 200, BodyProjectID "p"); on_upload := fun _ => Status 500;
     on_end := Status 200 |}.

(** modifiedList is in fileList, and every upload is for a path of
    modifiedList. *)
Definition subset_inv (s : st) : Prop :=
  incl (modifiedList s) (fileList s) /\
  Forall (fun m => In (RelativePath m) (modifiedList s)) (uploads (calls s)).


(** The calls of a bind: the begin call alone, or the begin call, one
    upload per entry of modifiedList, then the end call unless the run
    aborted. *)
Definition bind_shape (n : net) (req : BindRequest) (o : option unit) (s : st) : Prop :=
  (calls s = [CBegin req] /\ modifiedList s = []) \/
  exists pid code envs,
    on_start n = (Status code, BodyProjectID pid) /\
    map RelativePath envs = modifiedList s /\
    ((calls s = CBegin req :: map (CUpload pid) envs /\ o = None) \/
     calls s = CBegin req :: map (CUpload pid) envs ++ [CBindEnd pid {| ProjectID := pid |}]).

Definition upload_prefix (req : BindRequest) (pid : string) (s : st) : Prop :=
  exists envs, calls s = CBegin req :: map (CUpload pid) envs /\ map RelativePath envs = modifiedList s.



Definition two_files : entry :=
  Dir "proj" (Some [File "a" Regular 1000000000 (ReadOk (lit "x"));
                    File "b" Regular 1000000000 (ReadOk (lit "y"))]).

Definition unreadable_tree : entry :=
  Dir "proj" (Some [File "locked" Regular 1000000000 (ReadErr []);
                    File "ok" Regular 1000000000 (ReadOk (lit "x"))]).

Definition epoch_tree : entry :=
  Dir "proj" (Some [File "a" Regular 0 (ReadOk (lit "x"))]).

(** The kind of a call, or the path of an upload. *)
Definition call_label (cl : call) : string :=
  match cl with
  | CBegin _ => "begin"
  | CUpload _ m => RelativePath m
  | CBindEnd _ _ => "bind-end"
  | CUploadEnd _ _ => "upload-end"
  end.

(** Base64 digits that the decoder maps back to their value. *)
Definition enc_ok (k : nat) : bool :=
  match Base64.dec (Base64.enc (Z.of_nat k)) with
  | Some d => (d =? Z.of_nat k) && negb (Ascii.eqb (Base64.enc (Z.of_nat k)) Base64.StdPadding)
  | None => false
  end.

(** Bytes that no JSON string decoder treats specially. *)
Definition high (b : byte) : Prop := 128 <= bz b.

(** Case analysis on the engine's answer to an upload. *)
Ltac case_upload :=
  cbv zeta; match goal with |- context [on_upload ?n ?m] => destruct (on_upload n m) end.

(** Powers of two with constant exponents as numerals, and arithmetic
    with division and remainder by constants. *)
Ltac pow_consts :=
  repeat match goal with
         | |- context [2 ^ ?k] => let v := eval compute in (2 ^ k) in change (2 ^ k) with v
         | H : context [2 ^ ?k] |- _ => let v := eval compute in (2 ^ k) in change (2 ^ k) with v in H
         end.

Ltac arith := Z.div_mod_to_equations; lia.

End Props.

(** ** The other commands of project.go

    [DownloadTemplate], [checkIsExtension], [ValidateProject] and
    [writeCwSettingsIfNotInProject], over byte strings as Go has them, and
    the request body of an upload. *)


(** *** The project name of [DownloadTemplate] *)

Module NameFilter.

(** The class [a-zA-Z0-9._-]. *)
Definition in_class (r : Z) : bool :=
  ((0x61 <=? r) && (r <=? 0x7A)) || ((0x41 <=? r) && (r <=? 0x5A))
  || ((0x30 <=? r) && (r <=? 0x39)) || (r =? 0x2E) || (r =? 0x5F) || (r =? 0x2D).

(** [regexp.MustCompile("[^a-zA-Z0-9._-]").ReplaceAllString(s, "")].  The
    pattern matches exactly one rune outside the class, the rune as the
    matcher decodes it ([utf8.DecodeRuneInString]; an invalid byte is a rune
    [RuneError] of width one).  The leftmost-first matches are therefore
    those runes, each replaced by nothing, and the text between them is
    copied.  [fuel] is the length of the string. *)
Fixpoint replace_all (fuel : nat) (s : list byte) : list byte :=
  match fuel, s with
  | _, [] => []
  | O, _ :: _ => []
  | S f, _ :: _ =>
    let (r, size) := Utf8.DecodeRune s in
    (if in_class r then firstn size s else []) ++ replace_all f (skipn size s)
  end.

Definition ReplaceAllString (s : list byte) : list byte := replace_all (List.length s) s.

(** Lines 84-92 of [DownloadTemplate]. *)
Definition project_name (destination : list byte) : list byte :=
  let projectDir := GoPath.Base destination in
  let projectName := ReplaceAllString projectDir in
  if (List.length projectName =? 0)%nat then lit "PROJ_NAME_PLACEHOLDER" else projectName.

End NameFilter.

(** *** The commands run against the file system and the extensions *)

Module Cli.
Import GoPath.

(** An [error], by the text of [err.Error()]. *)
Definition error := list byte.

(** [apiroutes.ExtensionCommand] and [apiroutes.Extension] (package not in
    this repository), with the fields read here; a command's other fields
    are passed whole to [utils.RunCommand] and kept as [Command]. *)
Record ExtensionCommand := { Name : list byte; Command : list byte }.

Record Extension := {
  ProjectType : list byte; Detection : list byte; Commands : list ExtensionCommand }.

(** A [map[string]string] built by assignments. *)
Definition params := list (list byte * list byte).

(** [m[k] = v]. *)
Fixpoint map_set (m : params) (k v : list byte) : params :=
  match m with
  | [] => [(k, v)]
  | (k', v') :: m' => if bytes_eqb k k' then (k, v) :: m' else (k', v') :: map_set m' k v
  end.

(** [m[k]], the empty string for a missing key. *)
Fixpoint map_get (m : params) (k : list byte) : list byte :=
  match m with
  | [] => []
  | (k', v) :: m' => if bytes_eqb k k' then v else map_get m' k
  end.

Definition colon : byte := zb 0x3A.

(** [strings.Split(s, sep)] for a one-byte ASCII separator: the pieces
    between its occurrences ([[""]] for the empty string). *)
Fixpoint Split (sep : byte) (s : list byte) : list (list byte) :=
  match s with
  | [] => [[]]
  | c :: s' =>
    if Byte.eqb c sep then [] :: Split sep s'
    else match Split sep s' with
         | p :: ps => (c :: p) :: ps
         | [] => [[c]]
         end
  end.

(** The [syscall.Errno] of a failed [os.Stat]. *)
Inductive errno :=
| ENOENT | ENOTDIR | EACCES | ELOOP | ENAMETOOLONG | EOVERFLOW | ENOMEM | EFAULT | EBADF
| EEXIST | ENOTEMPTY | EOTHER.

(** The errors stat(2) is documented to return. *)
Definition stat_errno (e : errno) : bool :=
  match e with
  | ENOENT | ENOTDIR | EACCES | ELOOP | ENAMETOOLONG | EOVERFLOW | ENOMEM | EFAULT | EBADF => true
  | EEXIST | ENOTEMPTY | EOTHER => false
  end.

(** [os.IsExist] and [os.IsNotExist] on the error of [os.Stat] ([None] is
    [nil]); on Unix [Errno.Is(ErrExist)] holds for [EEXIST] and
    [ENOTEMPTY], [Errno.Is(ErrNotExist)] for [ENOENT]. *)
Definition IsExist (err : option errno) : bool :=
  match err with Some EEXIST | Some ENOTEMPTY => true | _ => false end.

Definition IsNotExist (err : option errno) : bool :=
  match err with Some ENOENT => true | _ => false end.

(** The answers of the functions outside this file: [apiroutes],
    [utils], [os.Stat].  [CheckProjectPath] returns ([true]) or ends the
    program. *)
Record env := {
  get_extensions : list Extension + error;
  path_exists : list byte -> bool;
  run_command : list byte -> ExtensionCommand -> params -> option error;
  stat : list byte -> option errno;
  project_path_ok : list byte -> bool;
  project_info : list byte -> list byte * list byte;
  download : list byte -> list byte -> option error;
  replace_in_files : list byte -> list byte -> list byte -> option error }.

(** What the commands do outside the process, in order. *)
Inductive effect :=
| EGetExtensions
| EPathExists (p : list byte)
| ERunCommand (projectPath : list byte) (cmd : ExtensionCommand) (ps : params)
| EStat (p : list byte)
| ERenameLegacySettings (src dst : list byte)
| EWriteNewCwSettings (p buildType : list byte)
| ECheckProjectPath (p : list byte)
| EDownload (url destination : list byte)
| EReplaceInFiles (destination pattern name : list byte)
| EPrint (out : list byte).

(** A writer of effects that may end the program ([None]: [log.Fatal] or
    an exit of a library function). *)
Definition CM (A : Type) : Type := list effect -> option A * list effect.

Definition cret {A} (a : A) : CM A := fun t => (Some a, t).
Definition cbind {A B} (m : CM A) (k : A -> CM B) : CM B :=
  fun t => match m t with
           | (Some a, t') => k a t'
           | (None, t') => (None, t')
           end.
Definition exit {A} : CM A := fun t => (None, t).
Definition emit (e : effect) : CM unit := fun t => (Some tt, t ++ [e]).

Notation "x <- m ;; k" := (cbind m (fun x => k)) (at level 61, m at next level, right associativity).
Notation "m ;;; k" := (cbind m (fun _ => k)) (at level 61, right associativity).

Section Commands.
Variable E : env.

Definition GetExtensions : CM (list Extension + error) :=
  emit EGetExtensions ;;; cret (get_extensions E).

Definition PathExists (p : list byte) : CM bool :=
  emit (EPathExists p) ;;; cret (path_exists E p).

Definition RunCommand (projectPath : list byte) (cmd : ExtensionCommand) (ps : params)
    : CM (option error) :=
  emit (ERunCommand projectPath cmd ps) ;;; cret (run_command E projectPath cmd ps).

Definition Stat (p : list byte) : CM (option errno) :=
  emit (EStat p) ;;; cret (stat E p).

Definition CheckProjectPath (p : list byte) : CM unit :=
  emit (ECheckProjectPath p) ;;; if project_path_ok E p then cret tt else exit.

(** The loop over the commands of the matching extension. *)
Fixpoint run_first (projectPath commandName : list byte) (ps : params)
    (cmds : list ExtensionCommand) : CM (option error) :=
  match cmds with
  | [] => cret None
  | command :: cmds' =>
    if bytes_eqb (Name command) commandName then RunCommand projectPath command ps
    else run_first projectPath commandName ps cmds'
  end.

(** The loop over the extensions. *)
Fixpoint find_extension (projectPath commandName : list byte) (ps : params)
    (extensions : list Extension) : CM (list byte * option error) :=
  match extensions with
  | [] => cret ([], None)
  | extension :: extensions' =>
    isMatch <- (if (0 <? List.length ps)%nat
                then cret (bytes_eqb (ProjectType extension) (map_get ps (lit "type")))
                else if negb (bytes_eqb (Detection extension) [])
                then PathExists (Join projectPath (Detection extension))
                else cret false) ;;
    if isMatch then
      cmdErr <- run_first projectPath commandName ps (Commands extension) ;;
      cret (ProjectType extension, cmdErr)
    else find_extension projectPath commandName ps extensions'
  end.

(** [checkIsExtension(projectPath, c)] with [u = c.String("u")] and
    [t = c.String("t")]. *)
Definition checkIsExtension (projectPath u t : list byte) : CM (list byte * option error) :=
  res <- GetExtensions ;;
  match res with
  | inr err => cret (lit "unknown", Some err)
  | inl extensions =>
    let hinted := bytes_eqb u [] && negb (bytes_eqb t []) in
    let ps := if hinted then
                let parts := Split colon t in
                let ps := map_set [] (lit "type") (nth 0 parts []) in
                if (1 <? List.length parts)%nat then map_set ps (lit "subtype") (nth 1 parts [])
                else ps
              else [] in
    let commandName := if hinted then lit "postProjectValidateWithType"
                       else lit "postProjectValidate" in
    find_extension projectPath commandName ps extensions
  end.

Definition writeCwSettingsIfNotInProject (projectPath BuildType : list byte) : CM unit :=
  let pathToCwSettings := Join projectPath (lit ".cw-settings") in
  let pathToLegacySettings := Join projectPath (lit ".mc-settings") in
  err <- Stat pathToLegacySettings ;;
  if IsExist err then emit (ERenameLegacySettings pathToLegacySettings pathToCwSettings)
  else
    err' <- Stat pathToCwSettings ;;
    if IsNotExist err' then emit (EWriteNewCwSettings pathToCwSettings BuildType) else cret tt.

(** [ProjectType] or a string, the two dynamic types of [Result]. *)
Inductive result :=
| RProjectType (Language BuildType : list byte)
| RString (s : list byte).

Record ValidationResponse := { Status : list byte; Path : list byte; Result : result }.

(** [json.Marshal] of the response: the fields in declaration order under
    their tags, strings as [Json.Marshal_string]. *)
Definition field (tag : string) (v : list byte) : list byte :=
  Json.Marshal_string (lit tag) ++ lit ":" ++ v.

Definition marshal_result (r : result) : list byte :=
  match r with
  | RProjectType l b =>
    lit "{" ++ field "language" (Json.Marshal_string l) ++ lit ","
    ++ field "projectType" (Json.Marshal_string b) ++ lit "}"
  | RString s => Json.Marshal_string s
  end.

Definition marshal_response (v : ValidationResponse) : list byte :=
  lit "{" ++ field "status" (Json.Marshal_string (Status v)) ++ lit ","
  ++ field "projectPath" (Json.Marshal_string (Path v)) ++ lit ","
  ++ field "result" (marshal_result (Result v)) ++ lit "}".

Definition newline : byte := zb 0x0A.

(** [ValidateProject(c)] with [projectPath = c.Args().Get(0)]; the
    [json.Marshal] of the response cannot fail, so [errors.CheckErr] does
    nothing. *)
Definition ValidateProject (projectPath u t : list byte) : CM unit :=
  CheckProjectPath projectPath ;;;
  let validationStatus := lit "success" in
  let '(language, buildType) := project_info E projectPath in
  let validationResult := RProjectType language buildType in
  r <- checkIsExtension projectPath u t ;;
  let '(extensionType, err) := r in
  let '(validationStatus, validationResult) :=
    if negb (bytes_eqb extensionType []) then
      match err with
      | None => (validationStatus, RProjectType language extensionType)
      | Some e => (lit "failed", RString e)
      end
    else (validationStatus, validationResult) in
  let response := {| Status := validationStatus; Path := projectPath;
                     Result := validationResult |} in
  let projectInfo := marshal_response response in
  (if bytes_eqb extensionType [] then writeCwSettingsIfNotInProject projectPath buildType
   else cret tt) ;;;
  emit (EPrint (projectInfo ++ [newline])).

(** [DownloadTemplate(c)] with [destination = c.Args().Get(0)] and
    [url = c.String("u")]; [log.Fatal] ends the program. *)
Definition DownloadTemplate (destination url : list byte) : CM unit :=
  if bytes_eqb destination [] then exit else
  let projectName := NameFilter.project_name destination in
  emit (EDownload url destination) ;;;
  match download E url destination with
  | Some _ => exit
  | None =>
    emit (EReplaceInFiles destination (lit "[PROJ_NAME_PLACEHOLDER]") projectName) ;;;
    match replace_in_files E destination (lit "[PROJ_NAME_PLACEHOLDER]") projectName with
    | Some _ => exit
    | None => cret tt
    end
  end.

End Commands.

End Cli.

(** *** The request body of an upload *)

Module Body.
Import Sync.

(** [json.NewEncoder(buf).Encode(fileUploadBody)]: the fields in
    declaration order under their tags, then a newline. *)
Definition upload_body (m : FileUploadMsg) : list byte :=
  lit "{" ++ Cli.field "isDirectory" (if IsDirectory m then lit "true" else lit "false") ++ lit ","
  ++ Cli.field "path" (Json.Marshal_string (lit (RelativePath m))) ++ lit ","
  ++ Cli.field "msg" (Json.Marshal_string (lit (Message m))) ++ lit "}" ++ [Cli.newline].

End Body.

(** ** Readings used in the statements about the other commands *)

Module MoreProps.
Import Sync Walk.

(** The records of [root] modified after the cursor [t], and the upload
    call a run issues for such a record. *)
Definition is_modified (t : Z) (r : string * kind * Z * read_result) : bool :=
  let '(_, _, m, _) := r in Z.quot m 1000000 >? t.

Definition modified_records (root : entry) (t : Z) : list (string * kind * Z * read_result) :=
  filter (is_modified t) (tree_records root).

Definition upload_of (c : Zlib.deflate_codec) (pid : string) (r : string * kind * Z * read_result)
    : call :=
  let '(p, _, _, rd) := r in
  CUpload pid {| IsDirectory := false; RelativePath := p; Message := Codec.encode c (read_data rd) |}.

(** An engine that answers every upload with a network error. *)
Definition neterr_net : net :=
  {| on_start := (Status 200, BodyProjectID "p"); on_upload := fun _ => NetErr;
     on_end := Status 200 |}.

(** A computation whose effects are appended to those before it, and whose
    result does not depend on them. *)
Definition frame {A} (m : Cli.CM A) : Prop := forall t0, m t0 = (fst (m []), t0 ++ snd (m [])).

(** The [isMatch] test of the loop of [checkIsExtension]. *)
Definition ext_match (E : Cli.env) (projectPath : list byte) (ps : Cli.params) (x : Cli.Extension) : bool :=
  if (0 <? List.length ps)%nat then GoPath.bytes_eqb (Cli.ProjectType x) (Cli.map_get ps (lit "type"))
  else negb (GoPath.bytes_eqb (Cli.Detection x) []) && Cli.path_exists E (GoPath.Join projectPath (Cli.Detection x)).

(** The commands run. *)
Definition is_run (e : Cli.effect) : bool := match e with Cli.ERunCommand _ _ _ => true | _ => false end.

Definition runs (effs : list Cli.effect) : list Cli.effect := filter is_run effs.

(** An environment: one extension of type [node] detected by
    [package.json] with one validation command, every path present but
    the settings files, every library call succeeding. *)
Definition node_ext : Cli.Extension :=
  {| Cli.ProjectType := lit "node"; Cli.Detection := lit "package.json";
     Cli.Commands := [{| Cli.Name := lit "postProjectValidate"; Cli.Command := lit "validate" |};
                      {| Cli.Name := lit "postProjectValidateWithType"; Cli.Command := lit "validate-typed" |}] |}.

Definition sample_env : Cli.env :=
  {| Cli.get_extensions := inl [node_ext];
     Cli.path_exists := fun _ => true;
     Cli.run_command := fun _ _ _ => None;
     Cli.stat := fun _ => Some Cli.ENOENT;
     Cli.project_path_ok := fun _ => true;
     Cli.project_info := fun _ => (lit "nodejs", lit "nodejs");
     Cli.download := fun _ _ => None;
     Cli.replace_in_files := fun _ _ _ => None |}.

(** The same environment where the extensions cannot be retrieved. *)
Definition offline_env : Cli.env :=
  {| Cli.get_extensions := inr (lit "connection refused");
     Cli.path_exists := fun _ => true;
     Cli.run_command := fun _ _ _ => None;
     Cli.stat := fun _ => Some Cli.ENOENT;
     Cli.project_path_ok := fun _ => true;
     Cli.project_info := fun _ => (lit "nodejs", lit "nodejs");
     Cli.download := fun _ _ => None;
     Cli.replace_in_files := fun _ _ _ => None |}.

(** A network error on an upload is the last call of a run, and the run
    fails. *)
Definition neterr_last (n : net) (o : option unit) (s : st) : Prop :=
  forall pre pid m post, calls s = pre ++ CUpload pid m :: post ->
  on_upload n m = NetErr -> post = [] /\ o = None.

(** The characters of a standard base64 text. *)
Definition b64_alphabet : list ascii := list_ascii_of_string (Base64.encodeStd ++ "=").

(** A plain path element: not empty, no slash, neither [.] nor [..]. *)
Definition simple_elem (e : list byte) : bool :=
  negb (GoPath.bytes_eqb e []) && forallb (fun c => negb (GoPath.is_slash c)) e
  && negb (GoPath.bytes_eqb e [GoPath.dot]) && negb (GoPath.bytes_eqb e [GoPath.dot; GoPath.dot]).

(** The condition under which the loop of [Clean] writes a slash before
    an element. *)
Definition needs_slash (rooted : bool) (out : list byte) : bool :=
  (rooted && negb (List.length out =? 1)%nat) || (negb rooted && negb (List.length out =? 0)%nat).

(** The names a directory listing gives below an entry are plain path
    elements ([readDirNames] never returns an empty name, [.] or [..],
    and a name holds no slash). *)
Fixpoint names_ok (e : entry) : bool :=
  match e with
  | Dir _ (Some es) =>
    (fix go (es : list entry) : bool :=
       match es with
       | [] => true
       | c :: es' => simple_elem (lit (entry_name c)) && names_ok c && go es'
       end) es
  | _ => true
  end.

(** A path in plain form: after at most one leading slash, one or more
    plain elements separated by single slashes (so no trailing slash, no
    [.] or [..] element). *)
Definition plain_path (p : string) : bool :=
  let b := lit p in
  forallb simple_elem
    (Cli.Split GoPath.slash (match b with c :: q => if GoPath.is_slash c then q else b | [] => b end)).

End MoreProps.

(** * Proofs *)

Module Bits.
Import Props.

Lemma bz_range (b : byte) : 0 <= bz b <= 255.
Proof. unfold bz. pose proof (Byte.to_N_bounded b). lia. Qed.

Lemma bz_zb (z : Z) : bz (zb z) = z mod 256.
Proof.
  unfold zb. pose proof (Z.mod_pos_bound z 256 ltac:(lia)) as Hm.
  destruct (Byte.of_N (Z.to_N (z mod 256))) as [b|] eqn:E.
  - apply Byte.to_of_N in E. unfold bz. rewrite E. apply Z2N.id. lia.
  - apply Byte.of_N_None_iff in E. lia.
Qed.

Lemma zb_of (z : Z) (b : byte) : z mod 256 = bz b -> zb z = b.
Proof. intro H. unfold zb. rewrite H. unfold bz. rewrite N2Z.id. rewrite Byte.of_to_N. reflexivity. Qed.

Lemma bz_inj (a b : byte) : bz a = bz b -> a = b.
Proof.
  intro H. rewrite <- (zb_of (bz a) a), <- (zb_of (bz b) b); try (rewrite H; reflexivity);
    apply Z.mod_small; pose proof (bz_range a); pose proof (bz_range b); lia.
Qed.

Lemma lor_add (x y k : Z) :
  0 <= k -> x mod 2 ^ k = 0 -> 0 <= y < 2 ^ k -> Z.lor x y = x + y.
Proof.
  intros Hk Hx Hy.
  assert (Hl : Z.land x y = 0).
  { apply Z.bits_inj'. intros i Hi. rewrite Z.land_spec, Z.bits_0.
    destruct (Z.lt_ge_cases i k) as [Hik|Hik].
    - assert (Hxe : x = x / 2 ^ k * 2 ^ k).
      { pose proof (Z.div_mod x (2 ^ k)) as E. pose proof (Z.pow_pos_nonneg 2 k). lia. }
      rewrite Hxe, Z.mul_pow2_bits_low by lia. reflexivity.
    - rewrite <- (Z.mod_small y (2 ^ k)) by lia.
      rewrite Z.mod_pow2_bits_high by lia. apply andb_false_r. }
  rewrite <- Z.lxor_lor by exact Hl. rewrite Z.add_nocarry_lxor by exact Hl. reflexivity.
Qed.

Lemma land_mask (x k : Z) : 0 <= k -> Z.land x (2 ^ k - 1) = x mod 2 ^ k.
Proof. intro Hk. rewrite <- Z.land_ones by exact Hk. rewrite Z.ones_equiv. reflexivity. Qed.

Lemma land63 x : Z.land x 63 = x mod 64.
Proof. exact (land_mask x 6 ltac:(lia)). Qed.
Lemma land31 x : Z.land x 31 = x mod 32.
Proof. exact (land_mask x 5 ltac:(lia)). Qed.
Lemma land15 x : Z.land x 15 = x mod 16.
Proof. exact (land_mask x 4 ltac:(lia)). Qed.
Lemma land7 x : Z.land x 7 = x mod 8.
Proof. exact (land_mask x 3 ltac:(lia)). Qed.

Lemma shl (x k : Z) : 0 <= k -> Z.shiftl x k = x * 2 ^ k.
Proof. apply Z.shiftl_mul_pow2. Qed.
Lemma shr (x k : Z) : 0 <= k -> Z.shiftr x k = x / 2 ^ k.
Proof. apply Z.shiftr_div_pow2. Qed.

End Bits.

Module Base64Facts.
Import Props Bits Base64.

Lemma dec_enc (k : Z) : 0 <= k < 64 -> dec (enc k) = Some k /\ Ascii.eqb (enc k) StdPadding = false.
Proof.
  intro Hk.
  assert (Hall : forallb enc_ok (seq 0 64) = true) by (vm_compute; reflexivity).
  rewrite forallb_forall in Hall. specialize (Hall (Z.to_nat k) ltac:(apply in_seq; lia)).
  unfold enc_ok in Hall. rewrite Z2Nat.id in Hall by lia.
  destruct (dec (enc k)) as [d|]; [|discriminate].
  apply andb_prop in Hall. destruct Hall as [Hd Hp]. apply Z.eqb_eq in Hd. subst d.
  split; [reflexivity|]. destruct (Ascii.eqb _ _); [discriminate|reflexivity].
Qed.

Lemma digit_range (x : Z) : 0 <= x mod 64 < 64.
Proof. apply Z.mod_pos_bound. lia. Qed.

Lemma decode_full c0 c1 c2 c3 d0 d1 d2 d3 rest :
  dec c0 = Some d0 -> dec c1 = Some d1 -> Ascii.eqb c2 StdPadding = false -> dec c2 = Some d2 ->
  Ascii.eqb c3 StdPadding = false -> dec c3 = Some d3 ->
  decode (c0 :: c1 :: c2 :: c3 :: rest) =
  let v := Z.lor (Z.lor (Z.lor (Z.shiftl d0 18) (Z.shiftl d1 12)) (Z.shiftl d2 6)) d3 in
  option_map (app [zb (Z.shiftr v 16); zb (Z.shiftr v 8); zb v]) (decode rest).
Proof. intros E0 E1 P2 E2 P3 E3. simpl decode at 1. rewrite E0, E1, P2, E2, P3, E3. reflexivity. Qed.

Lemma group3 b0 b1 b2 rest :
  let val := Z.lor (Z.lor (Z.shiftl (bz b0) 16) (Z.shiftl (bz b1) 8)) (bz b2) in
  decode ([enc (Z.land (Z.shiftr val 18) 0x3F); enc (Z.land (Z.shiftr val 12) 0x3F);
           enc (Z.land (Z.shiftr val 6) 0x3F); enc (Z.land val 0x3F)] ++ rest) =
  option_map (app [b0; b1; b2]) (decode rest).
Proof.
  intro val. pose proof (bz_range b0). pose proof (bz_range b1). pose proof (bz_range b2).
  assert (Hv : val = bz b0 * 65536 + bz b1 * 256 + bz b2).
  { unfold val. rewrite !shl by lia. pow_consts.
    rewrite (lor_add (bz b0 * 65536) (bz b1 * 256) 16) by (pow_consts; arith).
    rewrite (lor_add _ _ 8) by (pow_consts; arith). reflexivity. }
  change 0x3F with 63. rewrite !land63, !shr by lia. pow_consts. rewrite Hv.
  set (d0 := (_ / 262144) mod 64). set (d1 := (_ / 4096) mod 64).
  set (d2 := (_ / 64) mod 64). set (d3 := (_ + _ + bz b2) mod 64).
  destruct (dec_enc d0 (digit_range _)) as [E0 P0].
  destruct (dec_enc d1 (digit_range _)) as [E1 P1].
  destruct (dec_enc d2 (digit_range _)) as [E2 P2].
  destruct (dec_enc d3 (digit_range _)) as [E3 P3].
  simpl app. rewrite (decode_full _ _ _ _ d0 d1 d2 d3 rest E0 E1 P2 E2 P3 E3). cbv zeta.
  destruct (decode rest) as [r|]; [|reflexivity]. cbn [option_map app].
  assert (R : Z.lor (Z.lor (Z.lor (Z.shiftl d0 18) (Z.shiftl d1 12)) (Z.shiftl d2 6)) d3 =
              bz b0 * 65536 + bz b1 * 256 + bz b2).
  { pose proof (digit_range (bz b0 * 65536 + bz b1 * 256 + bz b2)).
    rewrite !shl by lia. pow_consts.
    rewrite (lor_add (d0 * 262144) (d1 * 4096) 18) by (pow_consts; unfold d0, d1; arith).
    rewrite (lor_add (d0 * 262144 + d1 * 4096) (d2 * 64) 12) by (pow_consts; unfold d0, d1, d2; arith).
    rewrite (lor_add (d0 * 262144 + d1 * 4096 + d2 * 64) d3 6) by (pow_consts; unfold d0, d1, d2, d3; arith).
    unfold d0, d1, d2, d3. arith. }
  rewrite R, !shr by lia. pow_consts.
  repeat f_equal; apply zb_of; arith.
Qed.

Lemma decode_pad1 c0 c1 c2 d0 d1 d2 :
  dec c0 = Some d0 -> dec c1 = Some d1 -> Ascii.eqb c2 StdPadding = false -> dec c2 = Some d2 ->
  decode [c0; c1; c2; StdPadding] =
  let v := Z.lor (Z.lor (Z.shiftl d0 18) (Z.shiftl d1 12)) (Z.shiftl d2 6) in
  Some [zb (Z.shiftr v 16); zb (Z.shiftr v 8)].
Proof. intros E0 E1 P2 E2. simpl decode. rewrite E0, E1, P2, E2. reflexivity. Qed.

Lemma decode_pad2 c0 c1 d0 d1 :
  dec c0 = Some d0 -> dec c1 = Some d1 ->
  decode [c0; c1; StdPadding; StdPadding] =
  Some [zb (Z.shiftr (Z.lor (Z.shiftl d0 18) (Z.shiftl d1 12)) 16)].
Proof. intros E0 E1. simpl decode. rewrite E0, E1. reflexivity. Qed.

Lemma group2 b0 b1 :
  let val := Z.lor (Z.shiftl (bz b0) 16) (Z.shiftl (bz b1) 8) in
  decode [enc (Z.land (Z.shiftr val 18) 0x3F); enc (Z.land (Z.shiftr val 12) 0x3F);
          enc (Z.land (Z.shiftr val 6) 0x3F); StdPadding] = Some [b0; b1].
Proof.
  intro val. pose proof (bz_range b0). pose proof (bz_range b1).
  assert (Hv : val = bz b0 * 65536 + bz b1 * 256).
  { unfold val. rewrite !shl by lia. pow_consts.
    rewrite (lor_add (bz b0 * 65536) (bz b1 * 256) 16) by (pow_consts; arith). reflexivity. }
  change 0x3F with 63. rewrite !land63, !shr by lia. pow_consts. rewrite Hv.
  set (d0 := (_ / 262144) mod 64). set (d1 := (_ / 4096) mod 64). set (d2 := (_ / 64) mod 64).
  destruct (dec_enc d0 (digit_range _)) as [E0 P0].
  destruct (dec_enc d1 (digit_range _)) as [E1 P1].
  destruct (dec_enc d2 (digit_range _)) as [E2 P2].
  rewrite (decode_pad1 _ _ _ d0 d1 d2 E0 E1 P2 E2). cbv zeta.
  assert (R : Z.lor (Z.lor (Z.shiftl d0 18) (Z.shiftl d1 12)) (Z.shiftl d2 6) =
              bz b0 * 65536 + bz b1 * 256).
  { rewrite !shl by lia. pow_consts.
    rewrite (lor_add (d0 * 262144) (d1 * 4096) 18) by (pow_consts; unfold d0, d1; arith).
    rewrite (lor_add (d0 * 262144 + d1 * 4096) (d2 * 64) 12) by (pow_consts; unfold d0, d1, d2; arith).
    unfold d0, d1, d2. arith. }
  rewrite R, !shr by lia. pow_consts.
  repeat f_equal; apply zb_of; arith.
Qed.

Lemma group1 b0 :
  let val := Z.shiftl (bz b0) 16 in
  decode [enc (Z.land (Z.shiftr val 18) 0x3F); enc (Z.land (Z.shiftr val 12) 0x3F);
          StdPadding; StdPadding] = Some [b0].
Proof.
  intro val. pose proof (bz_range b0).
  assert (Hv : val = bz b0 * 65536) by (unfold val; rewrite shl by lia; reflexivity).
  change 0x3F with 63. rewrite !land63, !shr by lia. pow_consts. rewrite Hv.
  set (d0 := (_ / 262144) mod 64). set (d1 := (_ / 4096) mod 64).
  destruct (dec_enc d0 (digit_range _)) as [E0 P0].
  destruct (dec_enc d1 (digit_range _)) as [E1 P1].
  rewrite (decode_pad2 _ _ d0 d1 E0 E1).
  assert (R : Z.lor (Z.shiftl d0 18) (Z.shiftl d1 12) = bz b0 * 65536).
  { rewrite !shl by lia. pow_consts.
    rewrite (lor_add (d0 * 262144) (d1 * 4096) 18) by (pow_consts; unfold d0, d1; arith).
    unfold d0, d1. arith. }
  rewrite R, !shr by lia. pow_consts.
  repeat f_equal; apply zb_of; arith.
Qed.

Lemma decode_encode_aux (n : nat) : forall l, (List.length l <= n)%nat -> decode (encode l) = Some l.
Proof.
  induction n as [|n IH]; intros l Hl.
  - destruct l; [reflexivity|simpl in Hl; lia].
  - destruct l as [|b0 [|b1 [|b2 rest]]].
    + reflexivity.
    + apply group1.
    + apply group2.
    + cbn [encode]. rewrite group3, IH by (simpl in Hl; lia). reflexivity.
Qed.

Lemma DecodeString_EncodeToString (l : list byte) : DecodeString (EncodeToString l) = Some l.
Proof.
  unfold DecodeString, EncodeToString. rewrite list_ascii_of_string_of_list_ascii.
  apply (decode_encode_aux (List.length l)). lia.
Qed.

End Base64Facts.

Module ZlibFacts.
Import Props Bits Zlib.

Lemma decompress_compress (c : deflate_codec) (d : list byte) :
  inflate_law c -> decompress c (compress c d) = Some d.
Proof.
  intro Hc. unfold compress.
  assert (Hh : header = [Byte.x78; Byte.x9c]) by reflexivity.
  rewrite Hh. cbn [app]. unfold decompress.
  change (((bz Byte.x78 * 256 + bz Byte.x9c) mod 31 =? 0) && (Z.land (bz Byte.x78) 0xF =? 8)
          && (Z.land (bz Byte.x9c) 0x20 =? 0)) with true. cbv iota beta.
  rewrite Hc. destruct (list_eq_dec Byte.byte_eq_dec _ _) as [_|Hn]; [reflexivity|].
  exfalso. apply Hn. reflexivity.
Qed.

Lemma le16_bytes (n : nat) :
  Z.of_nat n <= 65535 ->
  match le16 n with
  | [l0; l1] => bz l0 + 256 * bz l1 = Z.of_nat n
  | _ => False
  end.
Proof.
  intro Hn. unfold le16. cbv beta iota. rewrite !bz_zb, shr by lia. pow_consts. arith.
Qed.

Lemma firstn_len_app {A} (a b : list A) : firstn (List.length a) (a ++ b) = a.
Proof. induction a as [|x a IH]; simpl; [reflexivity|rewrite IH; reflexivity]. Qed.

Lemma skipn_len_app {A} (a b : list A) : skipn (List.length a) (a ++ b) = b.
Proof. induction a as [|x a IH]; simpl; [reflexivity|exact IH]. Qed.

Lemma max_stored_Z : Z.of_nat max_stored = 65535.
Proof. reflexivity. Qed.

Lemma stored_blocks_inflate (f : nat) :
  forall x rest g, (List.length x < f)%nat -> (f <= g)%nat ->
  stored_inflate_aux g (stored_blocks f x ++ rest) = Some (x, rest).
Proof.
  pose proof max_stored_Z as HM.
  induction f as [|f IH]; intros x rest g Hx Hg; [lia|].
  destruct g as [|g]; [lia|]. cbn [stored_blocks].
  destruct (Nat.leb_spec (List.length x) max_stored) as [Hle|Hgt].
  - pose proof (le16_bytes (List.length x) ltac:(lia)) as H1.
    pose proof (le16_bytes (max_stored - List.length x) ltac:(lia)) as H2.
    destruct (le16 (List.length x)) as [|l0 [|l1 [|]]]; try contradiction.
    destruct (le16 (max_stored - List.length x)) as [|n0 [|n1 [|]]]; try contradiction.
    cbn [app stored_inflate_aux].
    rewrite H1, H2.
    replace (Z.of_nat (max_stored - List.length x) =? 65535 - Z.of_nat (List.length x)) with true
      by (symmetry; apply Z.eqb_eq; lia).
    rewrite Nat2Z.id, length_app.
    destruct (Nat.leb_spec (List.length x) (List.length x + List.length rest)); [|lia].
    rewrite firstn_app, firstn_all, Nat.sub_diag, firstn_O, app_nil_r.
    rewrite skipn_app, skipn_all, Nat.sub_diag, skipn_O. reflexivity.
  - pose proof (le16_bytes max_stored ltac:(lia)) as H1.
    pose proof (le16_bytes 0 ltac:(lia)) as H2.
    destruct (le16 max_stored) as [|l0 [|l1 [|]]]; try contradiction.
    destruct (le16 0) as [|n0 [|n1 [|]]]; try contradiction.
    cbn [app stored_inflate_aux].
    rewrite H1, H2, HM.
    assert (Hf : List.length (firstn max_stored x) = max_stored) by (rewrite length_firstn; lia).
    rewrite <- !app_assoc.
    change (Z.to_nat 65535) with (Z.to_nat (Z.of_nat max_stored)). rewrite Nat2Z.id.
    rewrite length_app, Hf.
    destruct (Nat.leb_spec max_stored (max_stored + List.length (stored_blocks f (skipn max_stored x) ++ rest)));
      [|lia].
    set (a := firstn max_stored x) in *. rewrite <- Hf. rewrite firstn_len_app, skipn_len_app.
    change ((Z.land (bz (zb 0)) 6 =? 0) && (Z.of_nat 0 =? 65535 - 65535)) with true.
    cbn [andb].
    change (Z.land (bz (zb 0)) 1 =? 1) with false. cbv iota.
    rewrite IH by (try rewrite length_skipn; lia).
    rewrite Hf. unfold a. rewrite firstn_skipn. reflexivity.
Qed.

Lemma stored_blocks_length (f : nat) :
  forall x, (List.length x < f)%nat -> (List.length x <= List.length (stored_blocks f x))%nat.
Proof.
  pose proof max_stored_Z as HM.
  induction f as [|f IH]; intros x Hx; [lia|]. cbn [stored_blocks].
  destruct (Nat.leb_spec (List.length x) max_stored).
  - rewrite length_cons, !length_app. lia.
  - rewrite length_cons, !length_app, length_firstn.
    pose proof (IH (skipn max_stored x) ltac:(rewrite length_skipn; lia)) as Hs.
    rewrite length_skipn in Hs. lia.
Qed.

Lemma stored_law : inflate_law stored.
Proof.
  intros x rest. simpl. unfold stored_inflate, stored_deflate.
  apply stored_blocks_inflate; [lia|].
  rewrite length_app. pose proof (stored_blocks_length (S (List.length x)) x ltac:(lia)). lia.
Qed.

End ZlibFacts.

Module JsonFacts.
Import Props Bits Utf8 Json JsonDecode.

(** One ASCII byte, written as [encodeState.string] writes it, is read back. *)
Lemma ascii_step (c : byte) (t : list byte) :
  bz c < 128 ->
  unquote_body ((if htmlSafe (bz c) then [c] else escape_ascii c) ++ t) =
  option_map (cons c) (unquote_body t).
Proof.
  intro Hc. destruct c; try (vm_compute in Hc; discriminate); reflexivity.
Qed.

Lemma copy_high (l t : list byte) :
  Forall high l -> unquote_body (l ++ t) = option_map (app l) (unquote_body t).
Proof.
  induction 1 as [|b l Hb Hl IH]; simpl app.
  - destruct (unquote_body t); reflexivity.
  - unfold high in Hb. cbn [unquote_body].
    replace (bz b =? 0x22) with false by (symmetry; apply Z.eqb_neq; lia).
    replace (bz b =? 0x5C) with false by (symmetry; apply Z.eqb_neq; lia).
    replace (bz b <? 0x20) with false by (symmetry; apply Z.ltb_ge; lia).
    rewrite IH. destruct (unquote_body t); reflexivity.
Qed.

Lemma unquote_2028 (r : Z) (t : list byte) :
  r = 0x2028 \/ r = 0x2029 ->
  unquote_body (lit "\u202" ++ [hex_digit (Z.land r 0xF)] ++ t) =
  option_map (app (EncodeRune r)) (unquote_body t).
Proof. intros [-> | ->]; reflexivity. Qed.

Lemma first_info_spec (p0 : Z) sz lo hi :
  first_info p0 = Some (sz, lo, hi) ->
  (sz = 2%nat /\ 0xC2 <= p0 <= 0xDF /\ lo = 0x80 /\ hi = 0xBF) \/
  (sz = 3%nat /\ 0xE0 <= p0 <= 0xEF /\ 0x80 <= lo /\ hi <= 0xBF) \/
  (sz = 4%nat /\ 0xF0 <= p0 <= 0xF4 /\ 0x80 <= lo /\ hi <= 0xBF /\ (p0 = 0xF0 -> lo = 0x90)).
Proof.
  unfold first_info. intro H.
  repeat match type of H with
         | context [if ?b then _ else _] => destruct b eqn:?
         end;
  repeat match goal with
         | E : (_ && _) = true |- _ => apply andb_prop in E; destruct E
         | E : (_ <=? _) = true |- _ => apply Z.leb_le in E
         | E : (_ =? _) = true |- _ => apply Z.eqb_eq in E
         end;
  inversion H; subst; lia.
Qed.

Lemma out_of_false lo hi b : out_of lo hi b = false -> lo <= b <= hi.
Proof. unfold out_of. intro H. apply orb_false_iff in H. destruct H as [H1 H2].
  apply Z.ltb_ge in H1. apply Z.ltb_ge in H2. lia. Qed.

Lemma decode_multi (c : byte) rest r size :
  128 <= bz c -> DecodeRune (c :: rest) = (r, size) ->
  ((r =? RuneError) && (size =? 1)%nat) = false ->
  (1 <= size)%nat /\ (size <= S (List.length rest))%nat /\ Forall high (firstn size (c :: rest)) /\
  (r = 0x2028 \/ r = 0x2029 -> firstn size (c :: rest) = EncodeRune r).
Proof.
  intros Hc HD Hne. unfold DecodeRune in HD. cbv zeta in HD.
  replace (bz c <? RuneSelf) with false in HD by (symmetry; apply Z.ltb_ge; unfold RuneSelf; lia).
  destruct (first_info (bz c)) as [[[sz lo] hi]|] eqn:Fi; [|injection HD as <- <-; discriminate].
  apply first_info_spec in Fi.
  destruct (Nat.ltb_spec (List.length (c :: rest)) sz) as [Hl|Hl]; [injection HD as <- <-; discriminate|].
  simpl List.length in Hl.
  destruct rest as [|b1 rest]; [simpl in Hl; lia|]. unfold nth in HD; cbv beta iota in HD.
  pose proof (bz_range c). pose proof (bz_range b1).
  destruct (out_of lo hi (bz b1)) eqn:O1; [injection HD as <- <-; discriminate|].
  apply out_of_false in O1.
  unfold mask2, mask3, mask4, maskx, locb, hicb in HD.
  change 0x1F with 31 in HD. change 0x0F with 15 in HD. change 0x07 with 7 in HD.
  change 0x3F with 63 in HD. rewrite ?land31, ?land15, ?land7, ?land63 in HD.
  destruct (Nat.leb_spec sz 2) as [S2|S2].
  - cbv beta iota in HD. apply pair_equal_spec in HD. destruct HD as [<- <-].
    assert (sz = 2%nat) by lia. subst sz.
    split; [lia|]. split; [simpl; lia|]. split.
    { simpl. repeat constructor; unfold high; lia. }
    intro Hr. exfalso. rewrite shl in Hr by lia. pow_consts.
    rewrite (lor_add (bz c mod 32 * 64) (bz b1 mod 64) 6) in Hr by (pow_consts; arith).
    arith.
  - destruct rest as [|b2 rest]; [simpl in Hl; lia|]. unfold nth in HD; cbv beta iota in HD.
    pose proof (bz_range b2).
    destruct (out_of 128 191 (bz b2)) eqn:O2; [injection HD as <- <-; discriminate|].
    apply out_of_false in O2.
    destruct (Nat.leb_spec sz 3) as [S3|S3].
    + cbv beta iota in HD. apply pair_equal_spec in HD. destruct HD as [<- <-].
      assert (sz = 3%nat) by lia. subst sz.
      split; [lia|]. split; [simpl; lia|]. split.
      { simpl. repeat constructor; unfold high; lia. }
      rewrite !shl by lia. pow_consts.
      rewrite (lor_add (bz c mod 16 * 4096) (bz b1 mod 64 * 64) 12) by (pow_consts; arith).
      rewrite (lor_add (bz c mod 16 * 4096 + bz b1 mod 64 * 64) (bz b2 mod 64) 6) by (pow_consts; arith).
      intro Hr. simpl firstn.
      assert (E0 : c = Byte.xe2) by (apply bz_inj; change (bz Byte.xe2) with 226; arith).
      assert (E1 : b1 = Byte.x80) by (apply bz_inj; change (bz Byte.x80) with 128; arith).
      subst c b1.
      destruct Hr as [Hr|Hr]; rewrite Hr.
      * assert (E2 : b2 = Byte.xa8) by (apply bz_inj; change (bz Byte.xa8) with 168; arith).
        subst b2. reflexivity.
      * assert (E2 : b2 = Byte.xa9) by (apply bz_inj; change (bz Byte.xa9) with 169; arith).
        subst b2. reflexivity.
    + destruct rest as [|b3 rest]; [simpl in Hl; lia|]. unfold nth in HD; cbv beta iota in HD.
      pose proof (bz_range b3).
      destruct (out_of 128 191 (bz b3)) eqn:O3; [injection HD as <- <-; discriminate|].
      apply out_of_false in O3.
      cbv beta iota in HD. apply pair_equal_spec in HD. destruct HD as [<- <-].
      assert (sz = 4%nat) by lia. subst sz.
      split; [lia|]. split; [simpl; lia|]. split.
      { simpl. repeat constructor; unfold high; lia. }
      intro Hr. exfalso. rewrite !shl in Hr by lia. pow_consts.
      rewrite (lor_add (bz c mod 8 * 262144) (bz b1 mod 64 * 4096) 18) in Hr by (pow_consts; arith).
      rewrite (lor_add (bz c mod 8 * 262144 + bz b1 mod 64 * 4096) (bz b2 mod 64 * 64) 12) in Hr
        by (pow_consts; arith).
      rewrite (lor_add (bz c mod 8 * 262144 + bz b1 mod 64 * 4096 + bz b2 mod 64 * 64) (bz b3 mod 64) 6)
        in Hr by (pow_consts; arith).
      destruct Fi as [Fi|[Fi|Fi]]; [lia|lia|].
      destruct Fi as [_ [Hp [Hlo [Hhi Hf0]]]].
      destruct (Z.eq_dec (bz c) 0xF0) as [Ef|Ef].
      * specialize (Hf0 Ef). subst lo. rewrite Ef in Hr. arith.
      * arith.
Qed.

Lemma unquote_string_body (fuel : nat) :
  forall x, valid_aux fuel x = true -> unquote_body (string_body fuel x ++ [quote]) = Some x.
Proof.
  induction fuel as [|f IH]; intros [|c rest] Hv; try reflexivity; [discriminate|].
  cbn [valid_aux] in Hv. cbn [string_body].
  destruct (Z.ltb_spec (bz c) RuneSelf) as [Ha|Ha].
  - rewrite <- app_assoc, ascii_step by (unfold RuneSelf in Ha; lia).
    rewrite IH by exact Hv. reflexivity.
  - destruct (DecodeRune (c :: rest)) as [r size] eqn:HD.
    destruct ((r =? RuneError) && (size =? 1)%nat) eqn:Hne; [discriminate|].
    destruct (decode_multi c rest r size ltac:(unfold RuneSelf in Ha; lia) HD Hne)
      as [Hs1 [Hs2 [Hhigh Henc]]].
    destruct ((r =? 0x2028) || (r =? 0x2029)) eqn:Hls.
    + assert (Hr : r = 0x2028 \/ r = 0x2029).
      { apply orb_true_iff in Hls. destruct Hls as [E|E]; apply Z.eqb_eq in E; auto. }
      rewrite <- !app_assoc, unquote_2028 by exact Hr.
      rewrite IH by exact Hv. cbn [option_map]. rewrite <- (Henc Hr), firstn_skipn. reflexivity.
    + rewrite <- app_assoc, copy_high by exact Hhigh.
      rewrite IH by exact Hv. cbn [option_map]. rewrite firstn_skipn. reflexivity.
Qed.

Lemma Unmarshal_Marshal (x : list byte) :
  Valid x = true -> Unmarshal_string (Marshal_string x) = Some x.
Proof.
  intro Hv. unfold Marshal_string, Unmarshal_string.
  change (bz quote =? 0x22) with true. cbv iota.
  apply unquote_string_body. exact Hv.
Qed.

End JsonFacts.

Module PathFacts.
Import GoPath.

Lemma bytes_eqb_spec a b : bytes_eqb a b = true <-> a = b.
Proof. unfold bytes_eqb. destruct (list_eq_dec Byte.byte_eq_dec a b); split; congruence. Qed.

Lemma bytes_eqb_nil a : bytes_eqb a [] = match a with [] => true | _ :: _ => false end.
Proof. destruct a; reflexivity. Qed.

Lemma is_slash_spec c : is_slash c = true <-> c = slash.
Proof. unfold is_slash. split; [apply Byte.byte_dec_bl | intros ->; reflexivity]. Qed.

Lemma strip_step f c p :
  strip_trailing (S f) (c :: p) =
  if is_slash (last (c :: p) Byte.x00) then strip_trailing f (removelast (c :: p)) else c :: p.
Proof. reflexivity. Qed.

Lemma strip_trailing_spec f : forall p, (List.length p <= f)%nat ->
  strip_trailing f p = [] \/ is_slash (last (strip_trailing f p) Byte.x00) = false.
Proof.
  induction f as [|f IH]; intros p Hl.
  - destruct p; [left; reflexivity|simpl in Hl; lia].
  - destruct p as [|c p']; [left; reflexivity|]. rewrite strip_step.
    destruct (is_slash (last (c :: p') Byte.x00)) eqn:E.
    + apply IH. rewrite removelast_firstn_len, length_firstn. simpl in *. lia.
    + right. exact E.
Qed.

Lemma strip_trailing_keep f p :
  p <> [] -> is_slash (last p Byte.x00) = false -> strip_trailing (S f) p = p.
Proof. intros Hp Hl. destruct p as [|c p']; [congruence|]. rewrite strip_step, Hl. reflexivity. Qed.

Lemma last_In (l : list byte) d : l <> [] -> In (last l d) l.
Proof.
  intro H. rewrite (app_removelast_last d H) at 2. apply in_or_app. right. left. reflexivity.
Qed.

Lemma last_slash_below_spec s n :
  (last_slash_below s n = -1 /\ forall k, (k < n)%nat -> is_slash (nth k s Byte.x00) = false) \/
  (exists j, last_slash_below s n = Z.of_nat j /\ (j < n)%nat /\ is_slash (nth j s Byte.x00) = true /\
             forall k, (j < k < n)%nat -> is_slash (nth k s Byte.x00) = false).
Proof.
  induction n as [|n IH]; simpl.
  - left. split; [reflexivity|intros; lia].
  - destruct (is_slash (nth n s Byte.x00)) eqn:E.
    + right. exists n. split; [reflexivity|]. split; [lia|]. split; [exact E|]. intros; lia.
    + destruct IH as [[H1 H2]|[j [H1 [H2 [H3 H4]]]]].
      * left. split; [exact H1|]. intros k Hk.
        destruct (Nat.eq_dec k n) as [->|]; [exact E|]. apply H2. lia.
      * right. exists j. split; [exact H1|]. split; [lia|]. split; [exact H3|]. intros k Hk.
        destruct (Nat.eq_dec k n) as [->|]; [exact E|]. apply H4. lia.
Qed.

Lemma no_slash_nth (l : list byte) :
  (forall k, (k < List.length l)%nat -> is_slash (nth k l Byte.x00) = false) ->
  Forall (fun c => is_slash c = false) l.
Proof.
  intro H. apply Forall_forall. intros x Hx. apply In_nth with (d := Byte.x00) in Hx.
  destruct Hx as [k [Hk <-]]. apply H. exact Hk.
Qed.

Lemma lastSlash_none (s : list byte) :
  Forall (fun c => is_slash c = false) s -> lastSlash s = -1.
Proof.
  intro H. unfold lastSlash.
  destruct (last_slash_below_spec s (List.length s)) as [[H1 _]|[j [_ [Hj [Hs _]]]]]; [exact H1|].
  rewrite Forall_forall in H. rewrite (H _ (nth_In s Byte.x00 Hj)) in Hs. discriminate.
Qed.

Lemma Base_cases p :
  Base p = lit "/" \/ (Base p <> [] /\ Forall (fun c => is_slash c = false) (Base p)).
Proof.
  unfold Base. rewrite bytes_eqb_nil. destruct p as [|c p0].
  { right. split; [discriminate|repeat constructor]. }
  cbv zeta. set (q := strip_trailing _ _). unfold lastSlash.
  destruct (last_slash_below_spec q (List.length q)) as [[H1 H2]|[j [H1 [H2 [H3 H4]]]]];
    rewrite H1.
  - cbn [Z.leb Z.compare]. rewrite bytes_eqb_nil. destruct q as [|d q'] eqn:Eq; [left; reflexivity|].
    right. split; [discriminate|]. apply no_slash_nth. exact H2.
  - replace (0 <=? Z.of_nat j) with true by (symmetry; apply Z.leb_le; lia).
    rewrite Nat2Z.id. rewrite bytes_eqb_nil.
    destruct (skipn (j + 1) q) as [|d r] eqn:Es; [left; reflexivity|].
    right. split; [discriminate|]. rewrite <- Es. apply no_slash_nth. intros k Hk.
    rewrite nth_skipn. rewrite length_skipn in Hk. apply H4. lia.
Qed.

Lemma Base_no_slash x :
  x <> [] -> Forall (fun c => is_slash c = false) x -> Base x = x.
Proof.
  intros Hx Hf. assert (E : bytes_eqb x [] = false) by (destruct x; [congruence|reflexivity]).
  unfold Base. rewrite E. cbv zeta.
  replace (List.length x) with (S (Nat.pred (List.length x))) by (destruct x; [congruence|reflexivity]).
  rewrite Forall_forall in Hf.
  rewrite strip_trailing_keep by (try apply Hf; try apply last_In; exact Hx).
  rewrite lastSlash_none by (apply Forall_forall; exact Hf).
  cbn [Z.leb Z.compare]. rewrite E. reflexivity.
Qed.

(** path.Base: never empty, "/" or a slash-free element, and a fixed point. *)
Lemma Base_idempotent p :
  Base p <> [] /\ (Base p = lit "/" \/ ~ In slash (Base p)) /\ Base (Base p) = Base p.
Proof.
  destruct (Base_cases p) as [H|[Hne Hf]].
  - rewrite H. split; [discriminate|]. split; [left; reflexivity|]. vm_compute. reflexivity.
  - split; [exact Hne|]. split.
    + right. intro Hin. rewrite Forall_forall in Hf. specialize (Hf _ Hin). discriminate Hf.
    + apply Base_no_slash; assumption.
Qed.
End PathFacts.

Module SplitBase.
Import GoPath Cli PathFacts.

(** The pieces of [strings.Split]. *)
Lemma Split_decomp sep s :
  exists p ps, Split sep s = p :: ps /\
    s = p ++ List.concat (map (fun q => sep :: q) ps) /\
    Forall (fun q => ~ In sep q) (p :: ps).
Proof.
  induction s as [|c s IH].
  - exists [], []. split; [reflexivity|]. split; [reflexivity|]. repeat constructor. intros [].
  - destruct IH as [p [ps [Hs [He Hf]]]]. cbn [Split]. rewrite Hs.
    destruct (Byte.eqb c sep) eqn:Hc.
    + apply Byte.byte_dec_bl in Hc. subst c. exists [], (p :: ps).
      split; [reflexivity|]. split; [cbn; rewrite He; reflexivity|].
      constructor; [intros []|exact Hf].
    + exists (c :: p), ps. split; [reflexivity|]. split; [cbn; rewrite He; reflexivity|].
      inversion Hf as [|? ? Hp Hps]; subst. constructor; [|exact Hps].
      intros [H|H]; [subst; rewrite (Byte.byte_dec_lb eq_refl) in Hc; discriminate|exact (Hp H)].
Qed.

(** [strings.Split] cuts the string at every occurrence of the separator:
    it returns at least one piece, no piece contains the separator, and
    joining the pieces with the separator gives the string back. *)
Theorem Split_pieces sep s :
  exists p ps, Split sep s = p :: ps /\
    s = p ++ List.concat (map (fun q => sep :: q) ps) /\
    Forall (fun q => ~ In sep q) (p :: ps).
Proof. exact (Split_decomp sep s). Qed.

Lemma repeat_snoc {A} (a : A) k : repeat a (S k) = repeat a k ++ [a].
Proof.
  induction k as [|k IH]; [reflexivity|]. change (repeat a (S (S k))) with (a :: repeat a (S k)).
  rewrite IH at 1. reflexivity.
Qed.

Lemma strip_slashes x k : forall f, (k < f)%nat -> x <> [] -> is_slash (last x Byte.x00) = false ->
  strip_trailing f (x ++ repeat slash k) = x.
Proof.
  induction k as [|k IH]; intros f Hf Hx Hl.
  - destruct f as [|f]; [lia|]. rewrite app_nil_r. apply strip_trailing_keep; assumption.
  - destruct f as [|f]; [lia|]. rewrite repeat_snoc, app_assoc.
    destruct ((x ++ repeat slash k) ++ [slash]) as [|c p] eqn:He.
    { destruct x; [congruence|discriminate]. }
    rewrite strip_step, <- He, last_last, removelast_last.
    replace (is_slash slash) with true by reflexivity. apply IH; [lia|assumption|assumption].
Qed.

(** [path.Base] returns the last element of a path: after any prefix
    ending in a slash, a non-empty element without slash, followed by any
    number of trailing slashes, is returned as it is. *)
Theorem Base_last_element pre b k :
  b <> [] -> ~ In slash b -> (pre = [] \/ exists d, pre = d ++ [slash]) ->
  Base (pre ++ b ++ repeat slash k) = b.
Proof.
  intros Hb Hns Hpre.
  assert (Hf : Forall (fun c => is_slash c = false) b).
  { apply Forall_forall. intros c Hc. destruct (is_slash c) eqn:E; [|reflexivity].
    apply is_slash_spec in E. subst c. contradiction. }
  assert (Hbe : bytes_eqb b [] = false) by (destruct b; [congruence|reflexivity]).
  assert (Hlast : is_slash (last (pre ++ b) Byte.x00) = false).
  { rewrite (app_removelast_last Byte.x00 Hb), app_assoc, last_last.
    rewrite Forall_forall in Hf. apply Hf. apply last_In. exact Hb. }
  assert (Hx : pre ++ b <> []) by (destruct pre; [exact Hb|discriminate]).
  unfold Base.
  replace (bytes_eqb (pre ++ b ++ repeat slash k) []) with false
    by (destruct pre; [destruct b; [congruence|reflexivity]|reflexivity]).
  cbv zeta. rewrite app_assoc, strip_slashes; [| |exact Hx|exact Hlast].
  2:{ rewrite length_app, repeat_length. destruct (pre ++ b); [congruence|]. cbn. lia. }
  destruct Hpre as [->|[d ->]].
  - cbn [app]. rewrite lastSlash_none by exact Hf. cbn [Z.leb Z.compare]. rewrite Hbe. reflexivity.
  - assert (Hls : lastSlash ((d ++ [slash]) ++ b) = Z.of_nat (List.length d)).
    { rewrite <- app_assoc. cbn [app]. unfold lastSlash.
      assert (Hd : is_slash (nth (List.length d) (d ++ slash :: b) Byte.x00) = true)
        by (rewrite app_nth2, Nat.sub_diag by lia; reflexivity).
      destruct (last_slash_below_spec (d ++ slash :: b) (List.length (d ++ slash :: b)))
        as [[_ H2]|[j [H1 [H2 [H3 H4]]]]].
      - exfalso. rewrite H2 in Hd; [discriminate|]. rewrite length_app. cbn. lia.
      - rewrite H1. f_equal.
        destruct (Nat.lt_total j (List.length d)) as [Hj|[Hj|Hj]]; [|exact Hj|].
        + exfalso. rewrite H4 in Hd; [discriminate|]. rewrite length_app. cbn. lia.
        + exfalso. rewrite app_nth2 in H3 by lia.
          replace (j - List.length d)%nat with (S (j - List.length d - 1)) in H3 by lia.
          cbn [nth] in H3. rewrite length_app in H2. cbn [List.length] in H2.
          rewrite Forall_forall in Hf.
          rewrite (Hf _ (nth_In b Byte.x00 (ltac:(lia) : (j - List.length d - 1 < List.length b)%nat))) in H3.
          discriminate. }
    rewrite Hls.
    replace (0 <=? Z.of_nat (List.length d)) with true by (symmetry; apply Z.leb_le; lia).
    rewrite Nat2Z.id, <- app_assoc. cbn [app].
    replace (List.length d + 1)%nat with (S (List.length d)) by lia.
    rewrite skipn_app, skipn_all2 by lia. rewrite Nat.sub_succ_l, Nat.sub_diag by lia.
    cbn [app skipn]. rewrite Hbe. reflexivity.
Qed.

Lemma Base_last_element_witness :
  Base (lit "a/" ++ lit "b" ++ repeat slash 2) = lit "b".
Proof.
  apply (Base_last_element (lit "a/") (lit "b") 2).
  - intro H. vm_compute in H. discriminate H.
  - intro H. vm_compute in H. destruct H as [H|[]]. discriminate H.
  - right. exists (lit "a"). reflexivity.
Defined.

End SplitBase.

Module CleanFacts.
Import GoPath PathFacts MoreProps.
Local Open Scope nat_scope.


Lemma simple_spec q : simple_elem q = true ->
  q <> [] /\ (forall c, In c q -> is_slash c = false) /\ q <> [dot] /\ q <> [dot; dot].
Proof.
  unfold simple_elem. intro H. apply andb_prop in H as [H H4]. apply andb_prop in H as [H H3].
  apply andb_prop in H as [H1 H2]. apply negb_true_iff in H1, H3, H4.
  split; [intro E; subst; discriminate|]. split.
  - intros c Hc. rewrite forallb_forall in H2. specialize (H2 c Hc). apply negb_true_iff in H2. exact H2.
  - split; intro E; subst; discriminate.
Qed.

Lemma element_app q rest :
  (forall c, In c q -> is_slash c = false) -> (rest = [] \/ exists t, rest = slash :: t) ->
  element (q ++ rest) = q.
Proof.
  intros Hq Hr. induction q as [|c q IH].
  - destruct Hr as [->|[t ->]]; reflexivity.
  - cbn [app element]. rewrite (Hq c (or_introl eq_refl)). f_equal. apply IH.
    intros d Hd. apply Hq. right. exact Hd.
Qed.

Lemma nth_at (path : list byte) r i d : nth (r + i) path d = nth i (skipn r path) d.
Proof. rewrite nth_skipn. reflexivity. Qed.

Lemma len_gt (path : list byte) r x l : skipn r path = x :: l -> (r < List.length path)%nat.
Proof.
  intro H. destruct (Nat.lt_ge_cases r (List.length path)) as [Hl|Hl]; [exact Hl|].
  rewrite skipn_all2 in H by exact Hl. discriminate.
Qed.

Lemma len_skip (path : list byte) r : List.length (skipn r path) = (List.length path - r)%nat.
Proof. apply length_skipn. Qed.


Lemma elem_step f path rooted r out dd q rest :
  skipn r path = q ++ rest -> simple_elem q = true -> (rest = [] \/ exists t, rest = slash :: t) ->
  clean_loop (S f) path rooted r out dd =
  clean_loop f path rooted (r + List.length q)
    ((if needs_slash rooted out then out ++ [slash] else out) ++ q) dd.
Proof.
  intros Hs Hq Hr. destruct (simple_spec q Hq) as [Hne [Hns [Hd1 Hd2]]].
  destruct q as [|c q']; [congruence|].
  assert (Hn : (r < List.length path)%nat) by (eapply len_gt; exact Hs).
  assert (Hlen : List.length (skipn r path) = (List.length path - r)%nat) by apply len_skip.
  assert (Ht : forall i, nth (r + i) path Byte.x00 = nth i (c :: q' ++ rest) Byte.x00).
  { intro i. rewrite nth_at, Hs. reflexivity. }
  cbn [clean_loop]. cbv zeta.
  replace (r <? List.length path)%nat with true by (symmetry; apply Nat.ltb_lt; exact Hn).
  replace (nth r path Byte.x00) with c by (rewrite <- (Nat.add_0_r r), Ht; reflexivity).
  rewrite (Hns c (or_introl eq_refl)).
  assert (Hdot : Byte.eqb c dot && ((S r =? List.length path)%nat || is_slash (nth (S r) path Byte.x00)) = false
                 /\ Byte.eqb c dot && Byte.eqb (nth (S r) path Byte.x00) dot
                    && ((r + 2 =? List.length path)%nat || is_slash (nth (r + 2) path Byte.x00)) = false).
  { destruct (Byte.eqb c dot) eqn:Ec; [|split; reflexivity].
    apply Byte.byte_dec_bl in Ec. subst c.
    destruct q' as [|c2 q'']; [congruence|].
    rewrite Hs in Hlen. cbn [app List.length] in Hlen.
    replace (nth (S r) path Byte.x00) with c2 by (rewrite <- Nat.add_1_r, Ht; reflexivity).
    rewrite (Hns c2 (or_intror (or_introl eq_refl))).
    replace (S r =? List.length path)%nat with false by (symmetry; apply Nat.eqb_neq; lia).
    split; [reflexivity|].
    destruct (Byte.eqb c2 dot) eqn:Ec2; [|reflexivity].
    apply Byte.byte_dec_bl in Ec2. subst c2.
    destruct q'' as [|c3 q3]; [congruence|].
    cbn [app List.length] in Hlen.
    replace (nth (r + 2) path Byte.x00) with c3 by (rewrite Ht; reflexivity).
    rewrite (Hns c3 (or_intror (or_intror (or_introl eq_refl)))).
    replace (r + 2 =? List.length path)%nat with false by (symmetry; apply Nat.eqb_neq; lia).
    reflexivity. }
  destruct Hdot as [-> ->].
  rewrite Hs, element_app by assumption. reflexivity.
Qed.

Lemma slash_step f path rooted r out dd rest :
  skipn r path = slash :: rest ->
  clean_loop (S f) path rooted r out dd = clean_loop f path rooted (S r) out dd.
Proof.
  intro Hs. assert (Hn : (r < List.length path)%nat) by (eapply len_gt; exact Hs).
  cbn [clean_loop]. cbv zeta.
  replace (r <? List.length path)%nat with true by (symmetry; apply Nat.ltb_lt; exact Hn).
  replace (nth r path Byte.x00) with slash by (rewrite <- (Nat.add_0_r r), nth_at, Hs; reflexivity).
  reflexivity.
Qed.

Lemma skipn_S_of (l : list byte) r x t : skipn r l = x :: t -> skipn (S r) l = t.
Proof.
  revert l. induction r as [|r IH]; intros l H.
  - cbn in H. subst l. reflexivity.
  - destruct l as [|y l]; [discriminate|]. cbn in H |- *. apply (IH l H).
Qed.

Lemma skipn_prefix (a b : list byte) : skipn (List.length a) (a ++ b) = b.
Proof. induction a as [|x a IH]; [reflexivity|exact IH]. Qed.

Lemma skipn_after (l : list byte) r q rest : skipn r l = q ++ rest -> skipn (r + List.length q) l = rest.
Proof.
  intro H. rewrite Nat.add_comm, <- skipn_skipn, H. apply skipn_prefix.
Qed.

Lemma loop_tail path rooted es : forall r out f dd,
  skipn r path = List.concat (map (fun q => slash :: q) es) ->
  forallb simple_elem es = true -> needs_slash rooted out = true ->
  List.length path - r <= f ->
  clean_loop f path rooted r out dd = out ++ List.concat (map (fun q => slash :: q) es).
Proof.
  induction es as [|q es IH]; intros r out f dd Hs Hes Hn Hf.
  - cbn [map List.concat] in Hs |- *. rewrite app_nil_r.
    destruct f as [|f]; [reflexivity|].
    assert (Hl : List.length path <= r).
    { pose proof (len_skip path r) as L. rewrite Hs in L. cbn in L. lia. }
    cbn [clean_loop]. cbv zeta.
    replace (r <? List.length path) with false by (symmetry; apply Nat.ltb_ge; exact Hl).
    reflexivity.
  - cbn [forallb] in Hes. apply andb_prop in Hes as [Hq Hes].
    destruct (simple_spec q Hq) as [Hne _].
    cbn [map List.concat] in Hs |- *.
    pose proof (len_skip path r) as L. rewrite Hs in L. cbn [List.length] in L.
    rewrite length_app in L. destruct q as [|c q']; [congruence|]. cbn [List.length] in L.
    destruct f as [|[|f]]; [lia|lia|].
    cbn [app] in Hs.
    rewrite (slash_step _ _ _ _ _ _ _ Hs).
    assert (Hs1 := skipn_S_of _ _ _ _ Hs).
    rewrite (elem_step f path rooted (S r) out dd (c :: q') _ Hs1 Hq).
    2:{ destruct es as [|q2 es2]; [left; reflexivity|right; eexists; reflexivity]. }
    rewrite Hn. rewrite IH.
    + rewrite <- !app_assoc. reflexivity.
    + apply skipn_after. exact Hs1.
    + exact Hes.
    + unfold needs_slash. rewrite !length_app. cbn [List.length].
      destruct rooted; cbn; rewrite ?Bool.orb_false_r; apply negb_true_iff, Nat.eqb_neq; lia.
    + cbn [List.length]. lia.
Qed.

Lemma Clean_plain lead e es :
  (lead = [] \/ lead = [slash]) -> simple_elem e = true -> forallb simple_elem es = true ->
  Clean (lead ++ e ++ List.concat (map (fun q => slash :: q) es))
  = lead ++ e ++ List.concat (map (fun q => slash :: q) es).
Proof.
  intros Hl He Hes. destruct (simple_spec e He) as [Hne [Hns _]].
  set (p := lead ++ e ++ _).
  assert (Hp : p <> []) by (subst p; destruct lead, e; cbn; congruence).
  assert (Hroot : is_slash (nth 0 p Byte.x00) = match lead with [] => false | _ => true end).
  { subst p. destruct Hl as [->| ->]; [|reflexivity].
    destruct e as [|c e']; [congruence|]. cbn. apply Hns. left. reflexivity. }
  unfold Clean. replace (bytes_eqb p []) with false
    by (symmetry; destruct p; [congruence|reflexivity]).
  rewrite Hroot.
  assert (Hs0 : skipn (List.length lead) p = e ++ List.concat (map (fun q => slash :: q) es))
    by (subst p; apply skipn_prefix).
  assert (Hlen : List.length p = List.length lead + List.length e
                 + List.length (List.concat (map (fun q => slash :: q) es)))
    by (subst p; rewrite !length_app; lia).
  assert (Hout : clean_loop (List.length p) p (match lead with [] => false | _ => true end)
                   (List.length lead) lead (List.length lead) = p).
  { destruct e as [|c e']; [congruence|].
    remember (List.length p) as n eqn:En.
    destruct n as [|n]; [cbn in Hlen; lia|].
    rewrite (elem_step _ _ _ _ _ _ _ _ Hs0 He).
    2:{ destruct es as [|q2 es2]; [left; reflexivity|right; eexists; reflexivity]. }
    replace (needs_slash _ lead) with false by (destruct Hl as [-> | ->]; reflexivity).
    rewrite loop_tail with (es := es).
    - subst p. rewrite <- app_assoc. reflexivity.
    - apply skipn_after. exact Hs0.
    - exact Hes.
    - destruct Hl as [-> | ->]; reflexivity.
    - cbn [List.length] in Hlen |- *. lia. }
  replace (if match lead with [] => false | _ => true end then 1 else 0) with (List.length lead)
    by (destruct Hl as [-> | ->]; reflexivity).
  replace (if match lead with [] => false | _ => true end then [slash] else []) with lead
    by (destruct Hl as [-> | ->]; reflexivity).
  rewrite Hout. destruct p; [congruence|reflexivity].
Qed.

(** Join of a plain path and a plain name: for a path made of non-empty
    elements with no slash, none of them "." or "..", separated by single
    slashes, with or without one leading slash and with no trailing slash,
    [Clean] returns the path unchanged and [Join p name] is [p ++ "/" ++ name]
    for such a [name]. *)
Theorem Join_plain lead e es name :
  (lead = [] \/ lead = [slash]) -> simple_elem e = true -> forallb simple_elem es = true ->
  simple_elem name = true ->
  let p := lead ++ e ++ List.concat (map (fun q => slash :: q) es) in
  Clean p = p /\ Join p name = p ++ slash :: name.
Proof.
  intros Hl He Hes Hn p. split; [apply Clean_plain; assumption|].
  assert (Hp : p <> []).
  { destruct (simple_spec e He) as [Hne _]. subst p. destruct lead, e; cbn; congruence. }
  unfold Join. replace (bytes_eqb p []) with false by (symmetry; destruct p; [congruence|reflexivity]).
  cbn [negb].
  replace (p ++ [slash] ++ name)
    with (lead ++ e ++ List.concat (map (fun q => slash :: q) (es ++ [name]))).
  - rewrite Clean_plain; [|assumption|assumption|rewrite forallb_app, Hes; cbn; rewrite Hn; reflexivity].
    subst p. rewrite map_app, concat_app. cbn [map List.concat]. rewrite app_nil_r, <- !app_assoc. reflexivity.
  - subst p. rewrite map_app, concat_app. cbn [map List.concat]. rewrite app_nil_r, <- !app_assoc. reflexivity.
Qed.

Lemma Join_plain_witness :
  let p := [slash] ++ lit "home" ++ List.concat (map (fun q => slash :: q) [lit "user"; lit "proj"]) in
  Clean p = p /\ Join p (lit ".cw-settings") = p ++ slash :: lit ".cw-settings".
Proof.
  exact (Join_plain [slash] (lit "home") [lit "user"; lit "proj"] (lit ".cw-settings")
           (or_intror eq_refl) eq_refl eq_refl eq_refl).
Defined.

End CleanFacts.

Module SyncFacts.
Import Sync Walk Props.

(** *** Paths *)

Lemma list_ascii_of_string_app (s1 s2 : string) :
  list_ascii_of_string (s1 ++ s2) = list_ascii_of_string s1 ++ list_ascii_of_string s2.
Proof. induction s1 as [|a s1 IH]; simpl; [reflexivity | now rewrite IH]. Qed.

Lemma length_list_ascii (s : string) : List.length (list_ascii_of_string s) = String.length s.
Proof. induction s as [|a s IH]; simpl; [reflexivity | now rewrite IH]. Qed.

Lemma string_app_assoc (a b c : string) : ((a ++ b) ++ c)%string = (a ++ (b ++ c))%string.
Proof. induction a as [|x a IH]; simpl; [reflexivity | now rewrite IH]. Qed.

Lemma slice_join (pp rel : string) : slice_from (join pp rel) (String.length pp + 1) = Some rel.
Proof.
  unfold slice_from, join.
  rewrite <- !length_list_ascii, !list_ascii_of_string_app. simpl.
  rewrite length_app. simpl.
  destruct (Nat.leb_spec (List.length (list_ascii_of_string pp) + 1)
                         (List.length (list_ascii_of_string pp) + S (List.length (list_ascii_of_string rel))))
    as [_|H]; [|lia].
  rewrite skipn_app, skipn_all2 by lia. simpl.
  replace (List.length (list_ascii_of_string pp) + 1 - List.length (list_ascii_of_string pp))%nat
    with 1%nat by lia.
  simpl. now rewrite string_of_list_ascii_of_string.
Qed.

Lemma join_join (pp rel name : string) : join (join pp rel) name = join pp (rel ++ "/" ++ name).
Proof. unfold join. rewrite !string_app_assoc. reflexivity. Qed.

(** *** The monad *)

Lemma bind_assoc {A B C} (m : M A) (k : A -> M B) (h : B -> M C) s :
  bind (bind m k) h s = bind m (fun a => bind (k a) h) s.
Proof. unfold bind. destruct (m s) as [[a|] s']; reflexivity. Qed.

(** *** The walk is the run of its events *)

Lemma run_events_app cb l1 l2 s :
  run_events cb (l1 ++ l2) s = (run_events cb l1 ;;; run_events cb l2) s.
Proof.
  revert s. induction l1 as [|[p m rd|] l1 IH]; intro s; simpl.
  - reflexivity.
  - rewrite bind_assoc. unfold bind at 1 2.
    destruct (cb p m rd s) as [[[]|] s']; [rewrite IH; reflexivity|reflexivity].
  - reflexivity.
Qed.

Lemma walk_events cb e : forall path s, walk cb path e s = run_events cb (events path e) s.
Proof.
  induction e as [nm k m rd|nm|nm es IHes|nm] using entry_ind'; intros path s; simpl.
  - unfold bind, ret. destruct (cb path m rd s) as [[[]|] s']; reflexivity.
  - reflexivity.
  - revert s. induction IHes as [|e es He Hes IH]; intro s; simpl; [reflexivity|].
    rewrite run_events_app. unfold bind in *. rewrite He.
    destruct (run_events cb (events (filepath_join path (entry_name e)) e) s) as [[[]|] s'];
      [rewrite IH; reflexivity|reflexivity].
  - reflexivity.
Qed.

(** An invariant kept by every visit is kept by the run of the events. *)
Lemma run_events_inv (P : st -> Prop) cb evs :
  (forall p m rd s, In (Visit p m rd) evs -> P s -> P (snd (cb p m rd s))) ->
  forall s, P s -> P (snd (run_events cb evs s)).
Proof.
  induction evs as [|[p m rd|] evs IH]; intros Hcb s Hs; simpl; auto.
  unfold bind. pose proof (Hcb p m rd s (or_introl eq_refl) Hs) as Hstep.
  destruct (cb p m rd s) as [[[]|] s'] eqn:E; simpl in *.
  - apply IH; auto.
  - exact Hstep.
Qed.

(** A run of the events that does not panic met no [Abort]. *)
Lemma run_events_complete cb evs s s' :
  run_events cb evs s = (Some tt, s') -> filter is_visit evs = evs.
Proof.
  revert s. induction evs as [|[p m rd|] evs IH]; intros s H; simpl in *; auto.
  - unfold bind in H. destruct (cb p m rd s) as [[[]|] s0]; [|discriminate].
    f_equal. eapply IH; eauto.
  - discriminate.
Qed.

End SyncFacts.

Module RunFacts.
Import Sync Walk Props SyncFacts.

Lemma visit_file_spec c n pp pid t path m rd s :
  visit_file c n pp pid t path m rd s =
  match slice_from path (String.length pp + 1) with
  | None => (None, s)
  | Some rel =>
    if Z.quot m 1000000 >? t then
      let msg := {| IsDirectory := false; RelativePath := rel;
                    Message := Codec.encode c (read_data rd) |} in
      let s2 := {| fileList := fileList s ++ [rel]; modifiedList := modifiedList s ++ [rel];
                   calls := calls s ++ [CUpload pid msg] |} in
      match on_upload n msg with NetErr => (None, s2) | Status _ => (Some tt, s2) end
    else (Some tt, {| fileList := fileList s ++ [rel]; modifiedList := modifiedList s;
                      calls := calls s |})
  end.
Proof.
  unfold visit_file. destruct (slice_from path _) as [rel|]; [|reflexivity].
  unfold bind, add_file, add_modified, issue, ret, panic; simpl.
  destruct (Z.quot m 1000000 >? t); [|reflexivity].
  destruct (on_upload n _); reflexivity.
Qed.

Lemma visit_file_root c n pp pid t m rd s : visit_file c n pp pid t pp m rd s = (None, s).
Proof.
  unfold visit_file, slice_from.
  destruct (Nat.leb_spec (String.length pp + 1) (String.length pp)); [lia|reflexivity].
Qed.

Lemma uploads_app l1 l2 : uploads (l1 ++ l2) = uploads l1 ++ uploads l2.
Proof. unfold uploads. apply flat_map_app. Qed.

Lemma syncFiles_spec c n pp pid t root s :
  syncFiles c n pp pid t root s =
  match run_events (visit_file c n pp pid t)
          (events pp root) {| fileList := []; modifiedList := []; calls := calls s |} with
  | (Some _, s1) => (Some (fileList s1, modifiedList s1), s1)
  | (None, s1) => (None, s1)
  end.
Proof.
  unfold syncFiles, bind, reset_lists. rewrite walk_events.
  destruct (run_events _ _ _) as [[[]|] s1]; reflexivity.
Qed.



End RunFacts.

Module RunShape.
Import Sync Walk Props SyncFacts RunFacts.

Lemma SyncProject_spec c n pp pid t root s :
  SyncProject c n pp pid t root s =
  match run_events (visit_file c n pp pid t) (events pp root) (fresh s) with
  | (Some _, s1) => completeUpload n pid (fileList s1) (modifiedList s1) t s1
  | (None, s1) => (None, s1)
  end.
Proof.
  unfold SyncProject. unfold bind at 1. rewrite syncFiles_spec. unfold fresh.
  destruct (run_events _ _ _) as [[[]|] s1]; reflexivity.
Qed.

Lemma BindProject_spec c n pp nm l bt root s :
  let req := {| Language := l; Name := nm; ProjectType := bt; Path := pp |} in
  BindProject c n pp nm l bt root s =
  match on_start n with
  | (NetErr, _) => (Some tt, begun s req)
  | (Status _, BodyProjectID pid) =>
    match run_events (visit_file c n pp pid 0) (events pp root) (fresh (begun s req)) with
    | (Some _, s1) => completeRemotebind n pid s1
    | (None, s1) => (None, s1)
    end
  | (Status _, _) => (None, begun s req)
  end.
Proof.
  cbv zeta. unfold BindProject. unfold bind at 1. unfold issue at 1.
  destruct (on_start n) as [[|code] [| |pid]]; try reflexivity.
  unfold bind at 1. rewrite syncFiles_spec. unfold fresh, begun.
  destruct (run_events _ _ _) as [[[]|] s1]; reflexivity.
Qed.

Lemma completeUpload_calls n pid f m t s :
  calls (snd (completeUpload n pid f m t s)) =
  calls s ++ [CUploadEnd pid {| FileList := f; ModifiedList := m; TimeStamp := t |}] /\
  fileList (snd (completeUpload n pid f m t s)) = fileList s /\
  modifiedList (snd (completeUpload n pid f m t s)) = modifiedList s.
Proof. unfold completeUpload, bind, issue. destruct (on_end n); simpl; auto. Qed.

Lemma completeRemotebind_calls n pid s :
  calls (snd (completeRemotebind n pid s)) = calls s ++ [CBindEnd pid {| ProjectID := pid |}] /\
  fileList (snd (completeRemotebind n pid s)) = fileList s /\
  modifiedList (snd (completeRemotebind n pid s)) = modifiedList s.
Proof. unfold completeRemotebind, bind, issue. destruct (on_end n); simpl; auto. Qed.




End RunShape.

Module PlainWalk.
Import Sync Walk Props SyncFacts RunFacts MoreProps GoPath PathFacts SplitBase CleanFacts.

(** The bytes of the paths. *)
Lemma lit_app (a b : string) : lit (a ++ b) = lit a ++ lit b.
Proof. unfold lit, list_byte_of_string. rewrite list_ascii_of_string_app, map_app. reflexivity. Qed.

Lemma lit_join (P nm : string) : lit (join P nm) = lit P ++ [slash] ++ lit nm.
Proof. unfold join. rewrite !lit_app. reflexivity. Qed.

(** A path of plain elements, with its parts. *)
Definition plain_form (x : list byte) (lead q : list byte) (qs : list (list byte)) : Prop :=
  (lead = [] \/ lead = [slash]) /\ simple_elem q = true /\ forallb simple_elem qs = true /\
  x = lead ++ q ++ List.concat (map (fun y => slash :: y) qs).

Lemma plain_form_snoc x lead q qs nm :
  plain_form x lead q qs -> simple_elem nm = true ->
  plain_form (x ++ [slash] ++ nm) lead q (qs ++ [nm]).
Proof.
  intros [Hl [Hq [Hqs ->]]] Hn. split; [exact Hl|]. split; [exact Hq|]. split.
  - rewrite forallb_app, Hqs. cbn. rewrite Hn. reflexivity.
  - rewrite map_app, concat_app. cbn [map List.concat]. rewrite app_nil_r, <- !app_assoc. reflexivity.
Qed.

(** [filepath.Join] of a plain path and a plain name adds a slash and the
    name. *)
Lemma filepath_join_plain P nm lead q qs :
  plain_form (lit P) lead q qs -> simple_elem (lit nm) = true -> filepath_join P nm = join P nm.
Proof.
  intros Hp Hn. pose proof (plain_form_snoc _ _ _ _ _ Hp Hn) as Hp'.
  destruct Hp as [Hl [Hq [Hqs HP]]]. destruct Hp' as [_ [_ [Hqs' HP']]].
  unfold filepath_join. fold (lit P). fold (lit nm).
  assert (Hne : lit P <> []).
  { destruct (simple_spec q Hq) as [Hqn _]. rewrite HP. destruct lead, q; cbn; congruence. }
  unfold Join. replace (bytes_eqb (lit P) []) with false
    by (symmetry; destruct (lit P); [congruence|reflexivity]).
  cbn [negb]. rewrite HP', Clean_plain by assumption. rewrite <- HP', <- lit_join.
  apply string_of_list_byte_of_string.
Qed.

(** A path that [plain_path] accepts is in plain form. *)
Lemma plain_path_form pp : plain_path pp = true -> exists lead q qs, plain_form (lit pp) lead q qs.
Proof.
  unfold plain_path. cbv zeta.
  set (b := match lit pp with c :: r => if is_slash c then r else lit pp | [] => lit pp end).
  assert (Hb : exists lead, (lead = [] \/ lead = [slash]) /\ lit pp = lead ++ b).
  { subst b. destruct (lit pp) as [|c r]; [exists []; auto|].
    destruct (is_slash c) eqn:Ec.
    - exists [slash]. split; [right; reflexivity|]. apply is_slash_spec in Ec. subst c. reflexivity.
    - exists []. auto. }
  destruct Hb as [lead [Hl Hlb]]. intro H.
  destruct (Split_decomp slash b) as [q [qs [Hs [He _]]]].
  rewrite Hs in H. cbn [forallb] in H. apply andb_prop in H as [Hq Hqs].
  exists lead, q, qs. split; [exact Hl|]. split; [exact Hq|]. split; [exact Hqs|].
  rewrite Hlb, He. reflexivity.
Qed.

Lemma names_ok_dir nm es :
  names_ok (Dir nm (Some es)) = forallb (fun c => simple_elem (lit (entry_name c)) && names_ok c) es.
Proof.
  induction es as [|c es IH]; [reflexivity|]. cbn [forallb]. rewrite <- IH. reflexivity.
Qed.

(** The events of an entry at the plain path [join pp rel], once the
    aborts are dropped, are its records. *)
Lemma events_records_plain pp e : forall rel lead q qs,
  names_ok e = true -> plain_form (lit (join pp rel)) lead q qs ->
  filter is_visit (events (join pp rel) e) = map (visit_of pp) (nondir_records rel e).
Proof.
  induction e as [nm k m rd|nm|nm es IHes|nm] using entry_ind'; intros rel lead q qs Hn Hp;
    try reflexivity.
  rewrite names_ok_dir in Hn. cbn [events nondir_records]. revert Hn.
  induction IHes as [|e es He Hes IH]; intro Hn; [reflexivity|].
  cbn [forallb] in Hn. apply andb_prop in Hn as [He1 Hn]. apply andb_prop in He1 as [Hnm Hen].
  cbn [flat_map]. rewrite filter_app, map_app, (IH Hn).
  rewrite (filepath_join_plain _ _ _ _ _ Hp Hnm), join_join.
  rewrite (He _ lead q (qs ++ [lit (entry_name e)]) Hen); [reflexivity|].
  rewrite <- join_join, lit_join. exact (plain_form_snoc _ _ _ _ _ Hp Hnm).
Qed.

(** For a plain project path and plain names, the visits of the walk are
    those of the records of the tree, at [pp + "/" + rel]. *)
Lemma root_events_records pp root :
  plain_path pp = true -> names_ok root = true ->
  (forall nm k m rd, root <> File nm k m rd) ->
  filter is_visit (events pp root) = map (visit_of pp) (tree_records root).
Proof.
  intros Hpp Hn Hnf. destruct (plain_path_form pp Hpp) as [lead [q [qs Hp]]].
  destruct root as [nm k m rd|nm [es|]|nm]; try reflexivity.
  - exfalso. eapply Hnf. reflexivity.
  - rewrite names_ok_dir in Hn. clear Hnf. cbn [events tree_records].
    induction es as [|e es IH]; [reflexivity|].
    cbn [forallb] in Hn. apply andb_prop in Hn as [He1 Hn]. apply andb_prop in He1 as [Hnm Hen].
    cbn [flat_map]. rewrite filter_app, map_app, IH by exact Hn.
    rewrite (filepath_join_plain _ _ _ _ _ Hp Hnm).
    rewrite (events_records_plain pp e _ lead q (qs ++ [lit (entry_name e)]) Hen); [reflexivity|].
    rewrite lit_join. exact (plain_form_snoc _ _ _ _ _ Hp Hnm).
Qed.

End PlainWalk.

Module Claims.
Import Sync Walk Props SyncFacts RunFacts RunShape PlainWalk.

(** *** Change-set classification *)


(** The claim [C3]: a file met by the walk of a project rooted at [pp], at
    relative path [rel], is classified by its modification time in
    milliseconds, [UnixNano / 1000000], against the cursor with a strict
    comparison: it is appended to modifiedList and uploaded exactly when
    that time is greater than the cursor; a time equal to the cursor
    leaves it out of modifiedList and unsent.  It is in allFiles either way. *)
Theorem modified_iff_after_cursor c n pp pid cursor rel mtime rd s :
  let s' := snd (visit_file c n pp pid cursor (join pp rel) mtime rd s) in
  fileList s' = fileList s ++ [rel] /\
  modifiedList s' = modifiedList s ++ (if Z.quot mtime 1000000 >? cursor then [rel] else []) /\
  map RelativePath (uploads (calls s')) =
    map RelativePath (uploads (calls s)) ++ (if Z.quot mtime 1000000 >? cursor then [rel] else []).
Proof.
  cbv zeta. rewrite visit_file_spec, slice_join.
  destruct (Z.quot mtime 1000000 >? cursor).
  - case_upload; simpl; rewrite uploads_app, map_app; simpl; auto.
  - simpl. rewrite !app_nil_r. auto.
Qed.

(** The spec's boundary example: files at 100, 200 and 300 ms with the
    cursor at 200; only the file at 300 ms is modified and uploaded. *)
Example change_set_boundary :
  let s := snd (SyncProject Zlib.stored ok_net "proj" "p" 200
                  (Dir "proj" (Some [File "a" Regular 100000000 (ReadOk []);
                                     File "b" Regular 200000000 (ReadOk []);
                                     File "c" Regular 300000000 (ReadOk [])])) init) in
  fileList s = ["a"; "b"; "c"]%string /\ modifiedList s = ["c"]%string
  /\ map RelativePath (uploads (calls s)) = ["c"]%string.
Proof. vm_compute. auto. Qed.

(** *** Timestamp units *)

Lemma visit_no_end c n pp pid t p m rd s cursor :
  Forall (fun cl => match cl with CUploadEnd _ req => TimeStamp req = cursor | _ => True end) (calls s) ->
  Forall (fun cl => match cl with CUploadEnd _ req => TimeStamp req = cursor | _ => True end)
         (calls (snd (visit_file c n pp pid t p m rd s))).
Proof.
  intro H. rewrite visit_file_spec. destruct (slice_from p _) as [rel|]; [|exact H].
  destruct (Z.quot m 1000000 >? t); [|exact H].
  case_upload; simpl; apply Forall_app; split; auto.
Qed.

(** The claim [C9]: the time compared with the cursor is [UnixNano]
    divided by 1000000 (Go's [/], truncating), and the end-of-sync call
    sends as [timeStamp] the cursor of the run, the value those
    millisecond times were compared with. *)
Theorem millis_cursor_timestamp c n pp pid cursor root rel mtime rd s :
  modifiedList (snd (visit_file c n pp pid cursor (join pp rel) mtime rd s)) =
    modifiedList s ++ (if Z.quot mtime 1000000 >? cursor then [rel] else []) /\
  Forall (fun cl => match cl with CUploadEnd _ req => TimeStamp req = cursor | _ => True end)
         (calls (snd (SyncProject c n pp pid cursor root init))).
Proof.
  split.
  - rewrite visit_file_spec, slice_join.
    destruct (Z.quot mtime 1000000 >? cursor); [case_upload|]; simpl;
      rewrite ?app_nil_r; reflexivity.
  - rewrite SyncProject_spec.
    pose proof (run_events_inv
                  (fun s => Forall (fun cl => match cl with
                                              | CUploadEnd _ req => TimeStamp req = cursor
                                              | _ => True end) (calls s))
                  (visit_file c n pp pid cursor) (events pp root)
                  (fun p m rd s _ H => visit_no_end c n pp pid cursor p m rd s cursor H)
                  (fresh init) (Forall_nil _)) as H.
    destruct (run_events _ _ _) as [[u|] s1]; simpl in *; [|exact H].
    destruct (completeUpload_calls n pid (fileList s1) (modifiedList s1) cursor s1) as [Hc _].
    rewrite Hc. apply Forall_app. split; auto.
Qed.

(** *** modifiedFiles and uploads *)

Lemma visit_subset_inv c n pp pid t p m rd s :
  subset_inv s -> subset_inv (snd (visit_file c n pp pid t p m rd s)).
Proof.
  intros [Hi Hf]. rewrite visit_file_spec. destruct (slice_from p _) as [rel|]; [|split; auto].
  destruct (Z.quot m 1000000 >? t).
  - assert (Hs : subset_inv {| fileList := fileList s ++ [rel]; modifiedList := modifiedList s ++ [rel];
        calls := calls s ++ [CUpload pid {| IsDirectory := false; RelativePath := rel;
                                            Message := Codec.encode c (read_data rd) |}] |}).
    { split; simpl.
      - intros x Hx. apply in_app_or in Hx as [Hx|Hx]; apply in_or_app; auto.
      - rewrite uploads_app. apply Forall_app. split.
        + eapply Forall_impl; [|exact Hf]. intros a Ha. apply in_or_app; auto.
        + simpl. constructor; [apply in_or_app; right; left; reflexivity | constructor]. }
    case_upload; exact Hs.
  - split; simpl; auto. intros x Hx. apply in_or_app; auto.
Qed.

Lemma subset_inv_fresh s : uploads (calls s) = [] -> subset_inv (fresh s).
Proof. intro H. split; simpl; [intros x []|rewrite H; constructor]. Qed.

(** The claim [C7]: in every synchronisation run, a bind or an
    incremental sync, and whether it finishes or aborts, modifiedList is
    included in allFiles, and every upload sent is for a path of
    modifiedList, so nothing is sent for a path of allFiles outside it. *)
Theorem modified_subset_all c n pp pid cursor nm l bt root :
  subset_inv (snd (SyncProject c n pp pid cursor root init)) /\
  subset_inv (snd (BindProject c n pp nm l bt root init)).
Proof.
  split.
  - rewrite SyncProject_spec.
    pose proof (run_events_inv subset_inv (visit_file c n pp pid cursor) (events pp root)
                  (fun p m rd s _ H => visit_subset_inv c n pp pid cursor p m rd s H)
                  (fresh init) (subset_inv_fresh init eq_refl)) as H.
    destruct (run_events _ _ _) as [[u|] s1]; simpl in *; [|exact H].
    destruct (completeUpload_calls n pid (fileList s1) (modifiedList s1) cursor s1) as [Hc [Hf Hm]].
    destruct H as [Hi Hu]. split; rewrite Hm; [rewrite Hf; exact Hi|].
    rewrite Hc, uploads_app, app_nil_r. exact Hu.
  - rewrite BindProject_spec.
    destruct (on_start n) as [[|code] [| |pid']]; simpl;
      try (split; simpl; [intros x []|constructor]).
    pose proof (run_events_inv subset_inv (visit_file c n pp pid' 0) (events pp root)
                  (fun p m rd s _ H => visit_subset_inv c n pp pid' 0 p m rd s H)
                  (fresh (begun init {| Language := l; Name := nm; ProjectType := bt; Path := pp |}))
                  (subset_inv_fresh (begun init {| Language := l; Name := nm; ProjectType := bt;
                                                   Path := pp |}) eq_refl)) as H.
    destruct (run_events _ _ _) as [[u|] s1]; simpl in *; [|exact H].
    destruct (completeRemotebind_calls n pid' s1) as [Hc [Hf Hm]].
    destruct H as [Hi Hu]. split; rewrite Hm; [rewrite Hf; exact Hi|].
    rewrite Hc, uploads_app, app_nil_r. exact Hu.
Qed.

(** *** What an upload carries *)



(** *** Order of the calls of a bind *)

Lemma visit_upload_prefix c n pp pid t req p m rd s :
  upload_prefix req pid s -> upload_prefix req pid (snd (visit_file c n pp pid t p m rd s)).
Proof.
  intros [envs [Hc Hm]]. rewrite visit_file_spec. destruct (slice_from p _) as [rel|]; [|exists envs; auto].
  destruct (Z.quot m 1000000 >? t).
  - case_upload; simpl; exists (envs ++ [{| IsDirectory := false; RelativePath := rel;
                                             Message := Codec.encode c (read_data rd) |}]);
      rewrite map_app, map_app, Hc, Hm; simpl; auto.
  - exists envs; simpl; auto.
Qed.

(** The claim [C5]: a bind issues the begin call first; uploads are
    issued only once the begin call has answered with a project id, one
    per entry of modifiedList and in its order; the end call comes last,
    after all of them, and is missing only when the run aborted.  In the
    spec's scenario (one file [main.txt] holding "hello", modified at
    500 ms, cursor 0) the calls are exactly begin, one upload of its
    encoded content, end. *)
Theorem bind_call_order c n pp nm l bt root :
  bind_shape n {| Language := l; Name := nm; ProjectType := bt; Path := pp |}
             (fst (BindProject c n pp nm l bt root init))
             (snd (BindProject c n pp nm l bt root init)) /\
  BindProject c ok_net "proj" nm l bt
              (Dir "proj" (Some [File "main.txt" Regular 500000000 (ReadOk (lit "hello"))])) init =
  (Some tt, {| fileList := ["main.txt"%string]; modifiedList := ["main.txt"%string];
               calls := [CBegin {| Language := l; Name := nm; ProjectType := bt; Path := "proj" |};
                         CUpload "p" {| IsDirectory := false; RelativePath := "main.txt";
                                        Message := Codec.encode c (lit "hello") |};
                         CBindEnd "p" {| ProjectID := "p" |}] |}).
Proof.
  split; [|reflexivity].
  pose proof (BindProject_spec c n pp nm l bt root init) as Hb. cbv zeta in Hb. rewrite Hb.
  unfold bind_shape.
  destruct (on_start n) as [[|code] [| |pid]] eqn:Es; simpl; try (left; split; reflexivity).
  set (req := {| Language := l; Name := nm; ProjectType := bt; Path := pp |}).
  pose proof (run_events_inv (upload_prefix req pid) (visit_file c n pp pid 0) (events pp root)
                (fun p m rd s _ H => visit_upload_prefix c n pp pid 0 req p m rd s H)
                (fresh (begun init req)) (ex_intro _ [] (conj eq_refl eq_refl))) as H.
  destruct (run_events _ _ _) as [[u|] s1]; simpl in *; destruct H as [envs [Hc Hm]].
  - destruct (completeRemotebind_calls n pid s1) as [Hc' [_ Hm']].
    right. exists pid, code, envs. rewrite Hm'. split; [reflexivity|split; [exact Hm|right]].
    rewrite Hc', Hc. reflexivity.
  - right. exists pid, code, envs. split; [reflexivity|split; [exact Hm|left; auto]].
Qed.

(** *** The list of all files *)





(** *** Network failures and status codes *)

(** The claim [C4], as stated, is refuted: an upload answered with HTTP
    status 500 does not stop the run; the next upload and the end call
    are still issued and the run finishes normally. *)
Lemma upload_500_continues :
  fst (SyncProject Zlib.stored status500_net "proj" "p" 0 two_files init) = Some tt /\
  map call_label (calls (snd (SyncProject Zlib.stored status500_net "proj" "p" 0 two_files init))) =
    ["a"; "b"; "upload-end"]%string.
Proof. split; vm_compute; reflexivity. Qed.

Lemma run_events_ext cb1 cb2 evs :
  (forall p m rd s, cb1 p m rd s = cb2 p m rd s) ->
  forall s, run_events cb1 evs s = run_events cb2 evs s.
Proof.
  intros Hcb. induction evs as [|[p m rd|] evs IH]; intro s; simpl; auto.
  unfold bind. rewrite Hcb. destruct (cb2 p m rd s) as [[[]|] s']; auto.
Qed.

Lemma visit_file_norm c n pp pid t p m rd s :
  visit_file c n pp pid t p m rd s = visit_file c (norm_net n) pp pid t p m rd s.
Proof.
  rewrite !visit_file_spec. destruct (slice_from p _); [|reflexivity].
  destruct (_ >? _); [|reflexivity]. cbv zeta. simpl.
  match goal with |- context [on_upload n ?m] => destruct (on_upload n m) end; reflexivity.
Qed.

(** The claim [C4], amended: a begin call that gets no HTTP response ends
    the bind at once, with no upload and no end call; the HTTP status
    code of any response (begin, upload, end) is never inspected, so a
    run against an engine that answers with error statuses behaves
    exactly like one against an engine that answers 200. *)
Theorem status_codes_ignored c n pp pid t nm l bt root s b u e :
  BindProject c n pp nm l bt root s = BindProject c (norm_net n) pp nm l bt root s /\
  SyncProject c n pp pid t root s = SyncProject c (norm_net n) pp pid t root s /\
  BindProject c {| on_start := (NetErr, b); on_upload := u; on_end := e |} pp nm l bt root s =
    (Some tt, {| fileList := fileList s; modifiedList := modifiedList s;
                 calls := calls s ++ [CBegin {| Language := l; Name := nm; ProjectType := bt;
                                                Path := pp |}] |}).
Proof.
  assert (Hend : forall pid s, completeRemotebind n pid s = completeRemotebind (norm_net n) pid s).
  { intros. unfold completeRemotebind, bind, issue. simpl. destruct (on_end n); reflexivity. }
  assert (Hup : forall pid f m t s, completeUpload n pid f m t s = completeUpload (norm_net n) pid f m t s).
  { intros. unfold completeUpload, bind, issue. simpl. destruct (on_end n); reflexivity. }
  split; [|split].
  - rewrite !BindProject_spec. cbv zeta. simpl.
    destruct (on_start n) as [[|code] [| |pid']]; simpl; try reflexivity.
    rewrite (run_events_ext _ _ _ (visit_file_norm c n pp pid' 0)).
    destruct (run_events _ _ _) as [[[]|] s1]; auto.
  - rewrite !SyncProject_spec.
    rewrite (run_events_ext _ _ _ (visit_file_norm c n pp pid t)).
    destruct (run_events _ _ _) as [[[]|] s1]; auto.
  - rewrite BindProject_spec. reflexivity.
Qed.

(** *** Two runs that go against the comments of the code *)

(** The claim [C2]: a file whose read fails is not skipped, although the
    code says so ("Skip this file if there is an error reading it"): the
    error of the read is overwritten by the nil error of [json.Marshal],
    so the file is still listed as modified and its upload carries the
    encoding of the empty content. *)
Lemma unreadable_file_uploaded :
  modifiedList (snd (BindProject Zlib.stored ok_net "proj" "proj" "go" "docker" unreadable_tree init)) =
    ["locked"; "ok"]%string /\
  uploads (calls (snd (BindProject Zlib.stored ok_net "proj" "proj" "go" "docker" unreadable_tree init))) =
    [{| IsDirectory := false; RelativePath := "locked"; Message := Codec.encode Zlib.stored [] |};
     {| IsDirectory := false; RelativePath := "ok"; Message := Codec.encode Zlib.stored (lit "x") |}].
Proof. split; vm_compute; reflexivity. Qed.

(** The claim [C6]: the bind passes cursor 0 under the comment "Sync all
    the project files", but the comparison is strict: a file modified at
    the epoch (0 ms) is listed among all files and never uploaded. *)
Lemma bind_skips_epoch_file :
  fst (BindProject Zlib.stored ok_net "proj" "proj" "go" "docker" epoch_tree init) = Some tt /\
  fileList (snd (BindProject Zlib.stored ok_net "proj" "proj" "go" "docker" epoch_tree init)) = ["a"%string] /\
  modifiedList (snd (BindProject Zlib.stored ok_net "proj" "proj" "go" "docker" epoch_tree init)) = [] /\
  uploads (calls (snd (BindProject Zlib.stored ok_net "proj" "proj" "go" "docker" epoch_tree init))) = [].
Proof. repeat split; vm_compute; reflexivity. Qed.

(** *** The content pipeline *)

(** The claim [C1], as stated, is refuted: the byte [0xff], which is not
    valid UTF-8, is marshalled as the replacement character, and decoding
    gives back its UTF-8 encoding EF BF BD instead of [0xff]. *)
Lemma invalid_utf8_not_restored :
  Codec.decode Zlib.stored (Codec.encode Zlib.stored [Byte.xff]) = Some [Byte.xef; Byte.xbf; Byte.xbd].
Proof. vm_compute. reflexivity. Qed.

(** The claim [C1], amended: for every byte sequence that is valid UTF-8
    (the empty one included), and any DEFLATE codec whose inflater undoes
    its deflater, decoding the encoded content restores it exactly. *)
Theorem decode_encode_valid_utf8 (c : Zlib.deflate_codec) (b : list byte) :
  Zlib.inflate_law c -> Utf8.Valid b = true -> Codec.decode c (Codec.encode c b) = Some b.
Proof.
  intros Hc Hv. unfold Codec.decode, Codec.encode.
  rewrite Base64Facts.DecodeString_EncodeToString, ZlibFacts.decompress_compress by exact Hc.
  apply JsonFacts.Unmarshal_Marshal. exact Hv.
Qed.

Lemma decode_encode_valid_utf8_witness :
  Zlib.inflate_law Zlib.stored /\ Utf8.Valid (lit "hello") = true /\
  Codec.decode Zlib.stored (Codec.encode Zlib.stored (lit "hello")) = Some (lit "hello").
Proof.
  split; [exact ZlibFacts.stored_law|]. split; [vm_compute; reflexivity|].
  apply (decode_encode_valid_utf8 Zlib.stored (lit "hello")); [exact ZlibFacts.stored_law|].
  vm_compute. reflexivity.
Defined.


End Claims.

(** * Further properties of the code *)


Module NameFacts.
Import Props Bits Utf8 JsonFacts NameFilter.

Lemma first_info_E0 sz lo hi : first_info 0xE0 = Some (sz, lo, hi) -> lo = 0xA0.
Proof. vm_compute. intro H. inversion H. reflexivity. Qed.

(** A rune decoded from a leading byte outside ASCII is outside ASCII. *)
Lemma decode_rune_high (c : byte) rest r size :
  128 <= bz c -> DecodeRune (c :: rest) = (r, size) -> 128 <= r.
Proof.
  intros Hc HD. unfold DecodeRune in HD. cbv zeta in HD.
  replace (bz c <? RuneSelf) with false in HD by (symmetry; apply Z.ltb_ge; unfold RuneSelf; lia).
  destruct (first_info (bz c)) as [[[sz lo] hi]|] eqn:Fi;
    [|injection HD as <- <-; unfold RuneError; lia].
  pose proof Fi as Fi0. apply first_info_spec in Fi.
  destruct (Nat.ltb_spec (List.length (c :: rest)) sz) as [Hl|Hl];
    [injection HD as <- <-; unfold RuneError; lia|].
  simpl List.length in Hl.
  destruct rest as [|b1 rest]; [simpl in Hl; lia|]. unfold nth in HD; cbv beta iota in HD.
  pose proof (bz_range c). pose proof (bz_range b1).
  destruct (out_of lo hi (bz b1)) eqn:O1; [injection HD as <- <-; unfold RuneError; lia|].
  apply out_of_false in O1.
  unfold mask2, mask3, mask4, maskx, locb, hicb in HD.
  change 0x1F with 31 in HD. change 0x0F with 15 in HD. change 0x07 with 7 in HD.
  change 0x3F with 63 in HD. rewrite ?land31, ?land15, ?land7, ?land63 in HD.
  destruct (Nat.leb_spec sz 2) as [S2|S2].
  - cbv beta iota in HD. apply pair_equal_spec in HD. destruct HD as [<- _].
    rewrite shl by lia. pow_consts.
    rewrite (lor_add (bz c mod 32 * 64) (bz b1 mod 64) 6) by (pow_consts; arith).
    destruct Fi as [Fi|[Fi|Fi]]; [|lia|lia]. arith.
  - destruct rest as [|b2 rest]; [simpl in Hl; lia|]. unfold nth in HD; cbv beta iota in HD.
    pose proof (bz_range b2).
    destruct (out_of 128 191 (bz b2)) eqn:O2; [injection HD as <- <-; unfold RuneError; lia|].
    apply out_of_false in O2.
    destruct (Nat.leb_spec sz 3) as [S3|S3].
    + cbv beta iota in HD. apply pair_equal_spec in HD. destruct HD as [<- _].
      rewrite !shl by lia. pow_consts.
      rewrite (lor_add (bz c mod 16 * 4096) (bz b1 mod 64 * 64) 12) by (pow_consts; arith).
      rewrite (lor_add (bz c mod 16 * 4096 + bz b1 mod 64 * 64) (bz b2 mod 64) 6) by (pow_consts; arith).
      destruct Fi as [Fi|[Fi|Fi]]; [lia| |lia].
      destruct (Z.eq_dec (bz c) 0xE0) as [Ee|Ee].
      * rewrite Ee in Fi0. apply first_info_E0 in Fi0. subst lo. rewrite Ee. arith.
      * arith.
    + destruct rest as [|b3 rest]; [simpl in Hl; lia|]. unfold nth in HD; cbv beta iota in HD.
      pose proof (bz_range b3).
      destruct (out_of 128 191 (bz b3)) eqn:O3; [injection HD as <- <-; unfold RuneError; lia|].
      apply out_of_false in O3.
      cbv beta iota in HD. apply pair_equal_spec in HD. destruct HD as [<- _].
      rewrite !shl by lia. pow_consts.
      rewrite (lor_add (bz c mod 8 * 262144) (bz b1 mod 64 * 4096) 18) by (pow_consts; arith).
      rewrite (lor_add (bz c mod 8 * 262144 + bz b1 mod 64 * 4096) (bz b2 mod 64 * 64) 12)
        by (pow_consts; arith).
      rewrite (lor_add (bz c mod 8 * 262144 + bz b1 mod 64 * 4096 + bz b2 mod 64 * 64) (bz b3 mod 64) 6)
        by (pow_consts; arith).
      destruct Fi as [Fi|[Fi|Fi]]; [lia|lia|].
      destruct Fi as [_ [Hp [Hlo [Hhi Hf0]]]].
      destruct (Z.eq_dec (bz c) 0xF0) as [Ef|Ef].
      * specialize (Hf0 Ef). subst lo. rewrite Ef. arith.
      * arith.
Qed.

Lemma in_class_high (z : Z) : 128 <= z -> in_class z = false.
Proof.
  intro H. unfold in_class.
  replace (z <=? 0x7A) with false by (symmetry; apply Z.leb_gt; lia).
  replace (z <=? 0x5A) with false by (symmetry; apply Z.leb_gt; lia).
  replace (z <=? 0x39) with false by (symmetry; apply Z.leb_gt; lia).
  replace (z =? 0x2E) with false by (symmetry; apply Z.eqb_neq; lia).
  replace (z =? 0x5F) with false by (symmetry; apply Z.eqb_neq; lia).
  replace (z =? 0x2D) with false by (symmetry; apply Z.eqb_neq; lia).
  rewrite !andb_false_r. reflexivity.
Qed.

Lemma filter_high (l : list byte) :
  Forall high l -> filter (fun c => in_class (bz c)) l = [].
Proof.
  induction 1 as [|b l Hb _ IH]; [reflexivity|]. simpl. unfold high in Hb.
  rewrite in_class_high by exact Hb. exact IH.
Qed.

Lemma replace_all_filter f : forall s, (List.length s <= f)%nat ->
  replace_all f s = filter (fun c => in_class (bz c)) s.
Proof.
  induction f as [|f IH]; intros [|c rest] Hl; try reflexivity; [simpl in Hl; lia|].
  cbn [replace_all]. destruct (DecodeRune (c :: rest)) as [r size] eqn:HD.
  destruct (Z.ltb_spec (bz c) 128) as [Ha|Ha].
  - unfold DecodeRune in HD. replace (bz c <? RuneSelf) with true in HD
      by (symmetry; apply Z.ltb_lt; unfold RuneSelf; lia).
    injection HD as <- <-. cbn [firstn skipn filter].
    rewrite IH by (simpl in Hl; lia). destruct (in_class (bz c)); reflexivity.
  - rewrite (in_class_high r) by (apply (decode_rune_high c rest r size); [lia|exact HD]).
    destruct ((r =? RuneError) && (size =? 1)%nat) eqn:Hne.
    + apply andb_prop in Hne. destruct Hne as [_ Hs]. apply Nat.eqb_eq in Hs. subst size.
      cbn [firstn skipn app filter]. rewrite in_class_high by lia.
      apply IH. simpl in Hl. lia.
    + destruct (decode_multi c rest r size ltac:(lia) HD Hne) as [Hs1 [Hs2 [Hhigh _]]].
      rewrite <- (firstn_skipn size (c :: rest)) at 2.
      rewrite filter_app, filter_high by exact Hhigh. cbn [app].
      apply IH. rewrite length_skipn. simpl List.length in *. lia.
Qed.

Lemma replace_filter (s : list byte) :
  ReplaceAllString s = filter (fun c => in_class (bz c)) s.
Proof. apply replace_all_filter. lia. Qed.

(** The regular expression [[^a-zA-Z0-9._-]], applied rune by rune,
    removes exactly the bytes outside the class (a multi-byte or invalid
    UTF-8 sequence entirely), so that applying it again changes nothing. *)
Theorem ReplaceAllString_filter (s : list byte) :
  ReplaceAllString s = filter (fun c => in_class (bz c)) s /\
  ReplaceAllString (ReplaceAllString s) = ReplaceAllString s.
Proof.
  rewrite !replace_filter. split; [reflexivity|].
  induction s as [|c s IH]; [reflexivity|]. cbn [filter].
  destruct (in_class (bz c)) eqn:Hc.
  - cbn [filter]. rewrite Hc. rewrite IH. reflexivity.
  - exact IH.
Qed.

End NameFacts.

Module CliFacts.
Import GoPath Cli MoreProps PathFacts.

Lemma frame_cret {A} (a : A) : frame (cret a).
Proof. intro t0. unfold cret. simpl. rewrite app_nil_r. reflexivity. Qed.

Lemma frame_emit e : frame (emit e).
Proof. intro t0. reflexivity. Qed.

Lemma frame_exit {A} : frame (@exit A).
Proof. intro t0. unfold exit. simpl. rewrite app_nil_r. reflexivity. Qed.

Lemma frame_cbind {A B} (m : CM A) (k : A -> CM B) :
  frame m -> (forall a, frame (k a)) -> frame (cbind m k).
Proof.
  intros Hm Hk t0. unfold cbind. rewrite (Hm t0).
  destruct (m []) as [[a|] t1] eqn:E; simpl.
  - rewrite (Hk a (t0 ++ t1)), (Hk a t1). simpl. rewrite app_assoc. reflexivity.
  - reflexivity.
Qed.

Create HintDb frames.
#[local] Hint Resolve frame_cret frame_emit frame_exit frame_cbind : frames.

Ltac framed :=
  repeat match goal with
         | |- frame (cbind _ _) => apply frame_cbind; [|intro]
         | |- frame (if ?b then _ else _) => destruct b
         | |- frame (match ?x with _ => _ end) => destruct x
         | |- frame (let '(_, _) := ?x in _) => destruct x
         end; auto with frames.

Lemma frame_run_first E p cn ps cmds : frame (run_first E p cn ps cmds).
Proof. induction cmds as [|c cmds IH]; simpl; unfold RunCommand; framed. Qed.

Lemma frame_find_extension E p cn ps exts : frame (find_extension E p cn ps exts).
Proof.
  induction exts as [|x exts IH]; simpl; unfold PathExists; framed. apply frame_run_first.
Qed.

Lemma frame_checkIsExtension E p u t : frame (checkIsExtension E p u t).
Proof. unfold checkIsExtension, GetExtensions. framed. apply frame_find_extension. Qed.


Lemma run_first_spec E p cn ps cmds :
  run_first E p cn ps cmds [] = (Some None, []) \/
  exists cmd, In cmd cmds /\ Name cmd = cn /\
    run_first E p cn ps cmds [] = (Some (run_command E p cmd ps), [ERunCommand p cmd ps]).
Proof.
  induction cmds as [|c cmds IH]; [left; reflexivity|]. cbn [run_first].
  destruct (bytes_eqb (Name c) cn) eqn:Hc.
  - right. exists c. split; [left; reflexivity|]. split; [apply bytes_eqb_spec; exact Hc|].
    reflexivity.
  - destruct IH as [IH|[cmd [Hin [Hn IH]]]]; [left; exact IH|].
    right. exists cmd. split; [right; exact Hin|]. split; [exact Hn|exact IH].
Qed.

Lemma runs_app l1 l2 : runs (l1 ++ l2) = runs l1 ++ runs l2.
Proof. unfold runs. apply filter_app. Qed.

Lemma runs_probes l : (forall e, In e l -> exists q, e = EPathExists q) -> runs l = [].
Proof.
  induction l as [|e l IH]; intro H; [reflexivity|].
  destruct (H e (or_introl eq_refl)) as [q ->]. apply IH. intros e' He'. apply H. right. exact He'.
Qed.

Lemma find_extension_spec E p cn ps exts :
  exists new err,
    find_extension E p cn ps exts [] =
      (Some (match find (ext_match E p ps) exts with Some x => ProjectType x | None => [] end, err), new) /\
    (forall e, In e new -> is_run e = true \/ exists q, e = EPathExists q) /\
    (forall q, In (EPathExists q) new ->
       ps = [] /\ exists x, In x exts /\ Detection x <> [] /\ q = Join p (Detection x)) /\
    ((runs new = [] /\ err = None) \/
     exists cmd, runs new = [ERunCommand p cmd ps] /\ Name cmd = cn /\ err = run_command E p cmd ps).
Proof.
  induction exts as [|x exts IH].
  { exists [], None. split; [reflexivity|]. split; [intros e []|]. split; [intros q []|].
    left. split; reflexivity. }
  destruct IH as [new' [err' [Hf [Hk [Hq Hr]]]]].
  assert (Hp : exists probe,
    (if (0 <? List.length ps)%nat
     then cret (bytes_eqb (ProjectType x) (map_get ps (lit "type")))
     else if negb (bytes_eqb (Detection x) []) then PathExists E (Join p (Detection x))
     else cret false) [] = (Some (ext_match E p ps x), probe) /\
    (forall e, In e probe -> exists q, e = EPathExists q) /\
    (forall q, In (EPathExists q) probe -> ps = [] /\ Detection x <> [] /\ q = Join p (Detection x))).
  { unfold ext_match. destruct (0 <? List.length ps)%nat eqn:Hps.
    - exists []. split; [reflexivity|]. split; intros ? [].
    - assert (ps = []) by (destruct ps; [reflexivity|discriminate]). subst ps.
      destruct (negb (bytes_eqb (Detection x) [])) eqn:Hd.
      + exists [EPathExists (Join p (Detection x))]. split; [reflexivity|].
        split; [intros e [<-|[]]; eauto|].
        intros q [Hq'|[]]. injection Hq' as <-. split; [reflexivity|]. split; [|reflexivity].
        intro H0. rewrite H0 in Hd. discriminate.
      + exists []. split; [reflexivity|]. split; intros ? []. }
  destruct Hp as [probe [Hm [Hpk Hpq]]].
  assert (Hpq' : forall q, In (EPathExists q) probe ->
            ps = [] /\ exists y, In y (x :: exts) /\ Detection y <> [] /\ q = Join p (Detection y)).
  { intros q H0. destruct (Hpq q H0) as [H1 [H2 H3]]. split; [exact H1|].
    exists x. split; [left; reflexivity|]. split; assumption. }
  cbn [find_extension find]. unfold cbind at 1. rewrite Hm.
  destruct (ext_match E p ps x) eqn:Hx.
  - unfold cbind. rewrite frame_run_first.
    destruct (run_first_spec E p cn ps (Commands x)) as [R|[cmd [Hin [Hn R]]]]; rewrite R; cbn [fst snd].
    + exists probe, None. rewrite app_nil_r. split; [reflexivity|].
      split; [intros e He; right; auto|]. split; [exact Hpq'|].
      left. split; [apply runs_probes; exact Hpk|reflexivity].
    + exists (probe ++ [ERunCommand p cmd ps]), (run_command E p cmd ps). split; [reflexivity|].
      split.
      { intros e He. apply in_app_or in He. destruct He as [He|[<-|[]]]; [right; auto|left; reflexivity]. }
      split.
      { intros q He. apply in_app_or in He. destruct He as [He|[He|[]]]; [auto|discriminate]. }
      right. exists cmd. rewrite runs_app, runs_probes by exact Hpk. auto.
  - rewrite frame_find_extension, Hf. cbn [fst snd].
    exists (probe ++ new'), err'. split; [reflexivity|].
    split.
    { intros e He. apply in_app_or in He. destruct He as [He|He]; [right; auto|auto]. }
    split.
    { intros q He. apply in_app_or in He. destruct He as [He|He]; [auto|].
      destruct (Hq q He) as [H1 [y [Hy1 Hy2]]]. split; [exact H1|]. exists y. split; [right; exact Hy1|exact Hy2]. }
    rewrite runs_app, runs_probes by exact Hpk. exact Hr.
Qed.

Lemma check_spec E p u t exts :
  get_extensions E = inl exts ->
  checkIsExtension E p u t [] =
    (let hinted := bytes_eqb u [] && negb (bytes_eqb t []) in
     let ps := if hinted then
                 let parts := Split colon t in
                 let ps := map_set [] (lit "type") (nth 0 parts []) in
                 if (1 <? List.length parts)%nat then map_set ps (lit "subtype") (nth 1 parts [])
                 else ps
               else [] in
     let cn := if hinted then lit "postProjectValidateWithType" else lit "postProjectValidate" in
     (fst (find_extension E p cn ps exts []), EGetExtensions :: snd (find_extension E p cn ps exts []))).
Proof.
  intro G. unfold checkIsExtension, GetExtensions, cbind, emit, cret. cbn [app]. rewrite G.
  cbv zeta. rewrite frame_find_extension. reflexivity.
Qed.

Lemma check_effects E p u t e :
  In e (snd (checkIsExtension E p u t [])) ->
  e = EGetExtensions \/ is_run e = true \/ exists q, e = EPathExists q.
Proof.
  destruct (get_extensions E) as [exts|err] eqn:G.
  - rewrite (check_spec E p u t exts G). cbv zeta. cbn [snd].
    match goal with |- context [find_extension E p ?cn ?ps exts []] =>
      destruct (find_extension_spec E p cn ps exts) as [new [err [Hf [Hk _]]]]; rewrite Hf end.
    intros [H|H]; [left; auto|right; apply Hk; exact H].
  - unfold checkIsExtension, GetExtensions, cbind, emit, cret. cbn [app]. rewrite G.
    intros [H|[]]. left. auto.
Qed.

Lemma type_ne_subtype : bytes_eqb (lit "subtype") (lit "type") = false.
Proof. reflexivity. Qed.

Lemma type_eq_type : bytes_eqb (lit "type") (lit "type") = true.
Proof. reflexivity. Qed.

Lemma Split_nonempty sep l : Split sep l <> [].
Proof. destruct l as [|c l]; simpl; [discriminate|]. destruct (Byte.eqb c sep); [discriminate|].
  destruct (Split sep l); discriminate. Qed.

Lemma Split_app_nosep sep a l :
  ~ In sep a -> exists q qs, Split sep l = q :: qs /\ Split sep (a ++ l) = (a ++ q) :: qs.
Proof.
  induction a as [|c a IH]; intro Ha.
  - destruct (Split sep l) as [|q qs] eqn:Hs; [exfalso; exact (Split_nonempty sep l Hs)|].
    exists q, qs. split; [reflexivity|exact Hs].
  - destruct IH as [q [qs [H1 H2]]]; [intro H; apply Ha; right; exact H|].
    exists q, qs. split; [exact H1|]. cbn [app Split].
    destruct (Byte.eqb c sep) eqn:Hc; [apply Byte.byte_dec_bl in Hc; subst; exfalso; apply Ha; left; reflexivity|].
    rewrite H2. reflexivity.
Qed.

Lemma Split_nosep sep a : ~ In sep a -> Split sep a = [a].
Proof.
  intro Ha. destruct (Split_app_nosep sep a [] Ha) as [q [qs [H1 H2]]].
  simpl in H1. injection H1 as <- <-. rewrite app_nil_r in H2. exact H2.
Qed.

Lemma Split_first sep a l : ~ In sep a -> Split sep (a ++ sep :: l) = a :: Split sep l.
Proof.
  intro Ha. destruct (Split_app_nosep sep a (sep :: l) Ha) as [q [qs [H1 H2]]].
  cbn [Split] in H1. rewrite (Byte.byte_dec_lb eq_refl) in H1. injection H1 as <- <-.
  rewrite app_nil_r in H2. exact H2.
Qed.

Lemma find_existsb (f : Extension -> bool) (h : list byte) exts :
  (forall x, f x = bytes_eqb (ProjectType x) h) ->
  match find f exts with Some x => ProjectType x | None => [] end =
  if existsb f exts then h else [].
Proof.
  intro Hf. induction exts as [|x exts IH]; [reflexivity|]. cbn [find existsb].
  destruct (f x) eqn:Fx; [|exact IH]. cbn [orb]. rewrite Hf in Fx. apply bytes_eqb_spec. exact Fx.
Qed.

Lemma hinted_params a rest :
  (if (1 <? List.length (a :: rest))%nat
   then map_set (map_set [] (lit "type") a) (lit "subtype") (nth 1 (a :: rest) [])
   else map_set [] (lit "type") a) =
  match rest with [] => [(lit "type", a)] | b :: _ => [(lit "type", a); (lit "subtype", b)] end.
Proof.
  destruct rest as [|b rest]; [reflexivity|].
  cbn [List.length Nat.ltb Nat.leb nth map_set]. rewrite type_ne_subtype. reflexivity.
Qed.

Lemma find_ext_hinted E p cn ps exts h :
  (0 < List.length ps)%nat -> map_get ps (lit "type") = h ->
  exists err new, find_extension E p cn ps exts [] =
    (Some (if existsb (fun x => bytes_eqb (ProjectType x) h) exts then h else [], err), new) /\
    (forall q, ~ In (EPathExists q) new).
Proof.
  intros Hl Hg.
  destruct (find_extension_spec E p cn ps exts) as [new [err [Hf [_ [Hq _]]]]].
  exists err, new. split.
  - assert (Hx : forall x, ext_match E p ps x = bytes_eqb (ProjectType x) h).
    { intro x. unfold ext_match. destruct (Nat.ltb_spec 0 (List.length ps)); [|lia]. rewrite Hg. reflexivity. }
    rewrite Hf, (find_existsb _ h exts Hx).
    replace (existsb (ext_match E p ps) exts) with (existsb (fun x => bytes_eqb (ProjectType x) h) exts);
      [reflexivity|].
    clear Hf Hq. induction exts as [|x l IH]; [reflexivity|]. cbn [existsb]. rewrite Hx, IH. reflexivity.
  - intros q Hin. destruct (Hq q Hin) as [-> _]. simpl in Hl. lia.
Qed.

(** The hinted search of [checkIsExtension]: with no url and a
    [type:subtype] hint, no detection file is probed and the type returned
    is the hint's type when an extension declares it, [""] otherwise. *)
Theorem checkIsExtension_hinted_type E p t exts :
  get_extensions E = inl exts -> t <> [] ->
  let hint := nth 0 (Split colon t) [] in
  exists err effs,
    checkIsExtension E p [] t [] =
      (Some (if existsb (fun x => bytes_eqb (ProjectType x) hint) exts then hint else [], err), effs) /\
    (forall q, ~ In (EPathExists q) effs).
Proof.
  intros G Ht hint. rewrite (check_spec E p [] t exts G). cbv zeta.
  destruct t as [|c t']; [contradiction|]. rewrite (bytes_eqb_nil (c :: t')). cbn [andb negb].
  unfold hint in *. destruct (Split colon (c :: t')) as [|a rest] eqn:Hs;
    [exfalso; exact (Split_nonempty _ _ Hs)|].
  rewrite hinted_params. cbn [nth].
  match goal with |- context [find_extension E p ?cn ?ps exts []] =>
    destruct (find_ext_hinted E p cn ps exts a) as [err [new [Hf Hq]]] end.
  - destruct rest; simpl; lia.
  - destruct rest; reflexivity.
  - exists err, (EGetExtensions :: new). rewrite Hf. split; [reflexivity|].
    intros q [H|H]; [discriminate|exact (Hq q H)].
Qed.

Lemma runs_In e effs : In e effs -> is_run e = true -> In e (runs effs).
Proof. intros H1 H2. unfold runs. apply filter_In. split; assumption. Qed.

Lemma Split_hint_two a b r :
  ~ In colon a -> ~ In colon b -> (r = [] \/ exists r', r = colon :: r') ->
  exists rest, Split colon (a ++ colon :: b ++ r) = a :: b :: rest.
Proof.
  intros Ha Hb Hr. rewrite (Split_first colon a _ Ha).
  destruct Hr as [->|[r' ->]].
  - exists []. rewrite app_nil_r, (Split_nosep colon b Hb). reflexivity.
  - exists (Split colon r'). rewrite (Split_first colon b r' Hb). reflexivity.
Qed.

(** The command a hinted [checkIsExtension] runs: the
    [postProjectValidateWithType] command, in the project, with the
    parameters [type] (the hint up to its first colon) and [subtype] (the
    part after it, up to the next colon) when there is a colon. *)
Theorem checkIsExtension_hinted_params E p t exts pp cmd ps :
  get_extensions E = inl exts -> t <> [] ->
  In (ERunCommand pp cmd ps) (snd (checkIsExtension E p [] t [])) ->
  pp = p /\ Name cmd = lit "postProjectValidateWithType" /\
  (~ In colon t -> ps = [(lit "type", t)]) /\
  (forall a b r, ~ In colon a -> ~ In colon b -> (r = [] \/ exists r', r = colon :: r') ->
     t = a ++ colon :: b ++ r -> ps = [(lit "type", a); (lit "subtype", b)]).
Proof.
  intros G Ht. rewrite (check_spec E p [] t exts G). cbv zeta.
  destruct t as [|c t']; [contradiction|]. rewrite (bytes_eqb_nil (c :: t')). cbn [andb negb].
  destruct (Split colon (c :: t')) as [|a0 rest] eqn:Hs;
    [exfalso; exact (Split_nonempty _ _ Hs)|].
  rewrite hinted_params. cbn [nth].
  match goal with |- context [find_extension E p ?cn ?ps0 exts []] =>
    destruct (find_extension_spec E p cn ps0 exts) as [new [err [Hf [_ [_ Hr]]]]] end.
  rewrite Hf. cbn [snd]. intros [H|H]; [discriminate|].
  apply runs_In in H; [|reflexivity].
  destruct Hr as [[Hr _]|[cmd0 [Hr [Hn _]]]]; rewrite Hr in H; [destruct H|].
  destruct H as [H|[]]. injection H as Hpp Hcmd Hps. subst pp cmd ps.
  split; [reflexivity|]. split; [exact Hn|]. split.
  - intro Hc. rewrite (Split_nosep colon _ Hc) in Hs. injection Hs as <- <-. reflexivity.
  - intros a b r Ha Hb Hr' Ht'. rewrite Ht' in Hs.
    destruct (Split_hint_two a b r Ha Hb Hr') as [rest' Hs'].
    rewrite Hs' in Hs. injection Hs as <- <-. reflexivity.
Qed.

(** The unhinted search of [checkIsExtension] (a url given, or no type
    hint): the type returned is that of the first extension whose
    non-empty detection file exists in the project ([""] if none); the
    paths probed are the project joined with the extensions' non-empty
    detection files, and a command run is [postProjectValidate] with no
    parameters. *)
Theorem checkIsExtension_detection E p u t exts :
  get_extensions E = inl exts -> (u <> [] \/ t = []) ->
  exists err effs,
    checkIsExtension E p u t [] =
      (Some (match find (fun x => negb (bytes_eqb (Detection x) [])
                                  && path_exists E (Join p (Detection x))) exts with
             | Some x => ProjectType x | None => [] end, err), effs) /\
    (forall q, In (EPathExists q) effs ->
       exists x, In x exts /\ Detection x <> [] /\ q = Join p (Detection x)) /\
    (forall pp cmd ps, In (ERunCommand pp cmd ps) effs ->
       pp = p /\ ps = [] /\ Name cmd = lit "postProjectValidate").
Proof.
  intros G Hut. rewrite (check_spec E p u t exts G). cbv zeta.
  assert (Hh : bytes_eqb u [] && negb (bytes_eqb t []) = false).
  { destruct Hut as [Hu| ->].
    - destruct u; [contradiction|]. reflexivity.
    - destruct (bytes_eqb u []); reflexivity. }
  rewrite Hh.
  destruct (find_extension_spec E p (lit "postProjectValidate") [] exts)
    as [new [err [Hf [_ [Hq Hr]]]]].
  rewrite Hf. exists err, (EGetExtensions :: new). split; [reflexivity|]. split.
  - intros q [H|H]; [discriminate|]. apply Hq in H. destruct H as [_ H]. exact H.
  - intros pp cmd ps [H|H]; [discriminate|].
    apply runs_In in H; [|reflexivity].
    destruct Hr as [[Hr _]|[cmd0 [Hr [Hn _]]]]; rewrite Hr in H; [destruct H|].
    destruct H as [H|[]]. injection H as Hpp Hcmd Hps. subst pp cmd ps.
    split; [reflexivity|]. split; [reflexivity|exact Hn].
Qed.

(** [checkIsExtension] runs at most one extension command, in the
    project; an error it returns is either the failure to get the
    extensions (reported with the type [unknown], and nothing else done)
    or the error of the command it ran. *)
Theorem checkIsExtension_one_command E p u t :
  let '(o, effs) := checkIsExtension E p u t [] in
  (runs effs = [] \/ exists cmd ps, runs effs = [ERunCommand p cmd ps]) /\
  forall ty e, o = Some (ty, Some e) ->
    (get_extensions E = inr e /\ ty = lit "unknown" /\ effs = [EGetExtensions]) \/
    (exists cmd ps, runs effs = [ERunCommand p cmd ps] /\ run_command E p cmd ps = Some e).
Proof.
  destruct (get_extensions E) as [exts|err0] eqn:G.
  - rewrite (check_spec E p u t exts G). cbv zeta.
    match goal with |- context [find_extension E p ?cn ?ps exts []] =>
      destruct (find_extension_spec E p cn ps exts) as [new [err [Hf [_ [_ Hr]]]]] end.
    rewrite Hf. cbn [fst snd]. change (runs (EGetExtensions :: new)) with (runs new).
    split.
    + destruct Hr as [[Hr _]|[cmd [Hr _]]]; [left; exact Hr|right; eexists; eexists; exact Hr].
    + intros ty e Ho. injection Ho as _ He. subst err. right.
      destruct Hr as [[_ Hr]|[cmd [Hr [_ He]]]]; [discriminate|].
      exists cmd. eexists. split; [exact Hr|symmetry; exact He].
  - unfold checkIsExtension, GetExtensions, cbind, emit, cret. cbn [app]. rewrite G.
    split; [left; reflexivity|]. intros ty e Ho. injection Ho as <- <-. left. auto.
Qed.

(** [writeCwSettingsIfNotInProject] never renames the legacy settings:
    [os.IsExist] holds of none of the errors [os.Stat] returns, so the
    legacy file is only stat'ed, and the new settings are written exactly
    when [.cw-settings] does not exist. *)
Theorem writeCwSettings_never_renames E p bt :
  (forall q e, stat E q = Some e -> stat_errno e = true) ->
  writeCwSettingsIfNotInProject E p bt [] =
    (Some tt, [EStat (Join p (lit ".mc-settings")); EStat (Join p (lit ".cw-settings"))] ++
              match stat E (Join p (lit ".cw-settings")) with
              | Some ENOENT => [EWriteNewCwSettings (Join p (lit ".cw-settings")) bt]
              | _ => [] end).
Proof.
  intro Hs. unfold writeCwSettingsIfNotInProject, Stat, cbind, emit, cret. cbn [app].
  assert (Hx : IsExist (stat E (Join p (lit ".mc-settings"))) = false).
  { destruct (stat E (Join p (lit ".mc-settings"))) as [e|] eqn:He; [|reflexivity].
    specialize (Hs _ _ He). destruct e; try reflexivity; discriminate. }
  rewrite Hx. cbn [app].
  destruct (stat E (Join p (lit ".cw-settings"))) as [[]|]; reflexivity.
Qed.

Lemma frame_writeCw E p bt : frame (writeCwSettingsIfNotInProject E p bt).
Proof. unfold writeCwSettingsIfNotInProject, Stat. framed. Qed.

Lemma writeCw_effects E p bt e :
  In e (snd (writeCwSettingsIfNotInProject E p bt [])) ->
  (exists q, e = EStat q) \/
  e = ERenameLegacySettings (Join p (lit ".mc-settings")) (Join p (lit ".cw-settings")) \/
  e = EWriteNewCwSettings (Join p (lit ".cw-settings")) bt.
Proof.
  unfold writeCwSettingsIfNotInProject, Stat, cbind, emit, cret. cbn [app].
  destruct (IsExist _).
  - intros [H|[H|[]]]; [left; eauto|right; left; auto].
  - destruct (IsNotExist _); cbn [app snd]; intros [H|[H|H]]; try (left; eauto; fail).
    + destruct H as [H|[]]; auto.
    + destruct H.
Qed.

Lemma cbind_eq {A B} (m : CM A) (k : A -> CM B) t :
  cbind m k t = match m t with (Some a, t') => k a t' | (None, t') => (None, t') end.
Proof. reflexivity. Qed.

Ltac close_resp :=
  let Hx := fresh "Hx" in
  first [ reflexivity | discriminate | (left; reflexivity) | (right; reflexivity)
        | (intro Hx; discriminate Hx)
        | (intros [Hx _]; exfalso; apply Hx; reflexivity)
        | (intros [_ Hx]; exfalso; apply Hx; reflexivity)
        | (intros _; split; [assumption|discriminate])
        | (intro Hx; contradiction)
        | (intros Hx; exfalso; apply Hx; reflexivity)
        | (intros _ _; reflexivity)
        | (intros _ Hx; discriminate Hx)
        | (intros ? _ Hx; discriminate Hx)
        | (intros ? _ Hx; injection Hx as <-; reflexivity)
        | (intros ? Hx; exfalso; apply Hx; reflexivity)
        | (intros _; reflexivity) ].

Lemma writeCw_ok E p bt : fst (writeCwSettingsIfNotInProject E p bt []) = Some tt.
Proof.
  unfold writeCwSettingsIfNotInProject, Stat, cbind, emit, cret. cbn [app].
  destruct (IsExist _); [reflexivity|]. destruct (IsNotExist _); reflexivity.
Qed.

Lemma check_ok E p u t : exists ty err, fst (checkIsExtension E p u t []) = Some (ty, err).
Proof.
  destruct (get_extensions E) as [exts|e] eqn:G.
  - rewrite (check_spec E p u t exts G). cbv zeta.
    match goal with |- context [find_extension E p ?cn ?ps exts []] =>
      destruct (find_extension_spec E p cn ps exts) as [new [err [Hf _]]] end.
    rewrite Hf. do 2 eexists. reflexivity.
  - unfold checkIsExtension, GetExtensions, cbind, emit, cret. cbn [app]. rewrite G.
    do 2 eexists. reflexivity.
Qed.

(** What [ValidateProject] does once the project path is accepted: it
    prints one response, last; the settings files are touched only when
    no extension type was found, and then with [.cw-settings] and the
    detected build type; the status is [failed] exactly when an extension
    matched and reported an error, and the result is the detected project
    type, the extension's type under the detected language, or the error. *)
Theorem ValidateProject_outcome E p u t ty err :
  project_path_ok E p = true ->
  fst (checkIsExtension E p u t []) = Some (ty, err) ->
  let '(lang, bt) := project_info E p in
  let '(o, effs) := ValidateProject E p u t [] in
  o = Some tt /\
  (forall a b, In (EWriteNewCwSettings a b) effs ->
     ty = [] /\ a = Join p (lit ".cw-settings") /\ b = bt) /\
  (forall a b, In (ERenameLegacySettings a b) effs -> ty = []) /\
  exists resp pre,
    effs = pre ++ [EPrint (marshal_response resp ++ [newline])] /\
    (forall out, ~ In (EPrint out) pre) /\
    Path resp = p /\
    (Status resp = lit "failed" <-> ty <> [] /\ err <> None) /\
    (Status resp = lit "failed" \/ Status resp = lit "success") /\
    (ty = [] -> Result resp = RProjectType lang bt) /\
    (ty <> [] -> err = None -> Result resp = RProjectType lang ty) /\
    (forall e, ty <> [] -> err = Some e -> Result resp = RString e).
Proof.
  intros Hok Hc. cbv [ValidateProject CheckProjectPath cbind emit cret exit]. rewrite Hok.
  destruct (project_info E p) as [lang bt]. cbn [app].
  rewrite (frame_checkIsExtension E p u t [ECheckProjectPath p]).
  destruct (checkIsExtension E p u t []) as [o ceffs] eqn:HC. cbn [fst snd] in *. subst o.
  assert (Hce : forall out, ~ In (EPrint out) ceffs).
  { intros out H. pose proof (check_effects E p u t (EPrint out)) as Hx. rewrite HC in Hx.
    destruct (Hx H) as [H'|[H'|[q H']]]; discriminate. }
  assert (Hcw : forall a b, ~ In (EWriteNewCwSettings a b) ceffs /\ ~ In (ERenameLegacySettings a b) ceffs).
  { intros a b. split; intro H;
      [pose proof (check_effects E p u t (EWriteNewCwSettings a b)) as Hx
      |pose proof (check_effects E p u t (ERenameLegacySettings a b)) as Hx];
      rewrite HC in Hx; destruct (Hx H) as [H'|[H'|[q H']]]; discriminate. }
  cbv beta iota.
  destruct (bytes_eqb ty []) eqn:Hty.
  - apply bytes_eqb_spec in Hty. subst ty.
    cbn [negb]. cbv beta iota.
    rewrite (frame_writeCw E p bt ([ECheckProjectPath p] ++ ceffs)), writeCw_ok.
    split; [reflexivity|].
    assert (Hw : forall e, In e (([ECheckProjectPath p] ++ ceffs) ++ snd (writeCwSettingsIfNotInProject E p bt [])) ->
              e = ECheckProjectPath p \/ In e ceffs \/ In e (snd (writeCwSettingsIfNotInProject E p bt []))).
    { intros e H. apply in_app_or in H. destruct H as [H|H]; [|right; right; exact H].
      apply in_app_or in H. destruct H as [[H|[]]|H]; [left; auto|right; left; exact H]. }
    split; [|split].
    + intros a b H. apply in_app_or in H. destruct H as [H|[H|[]]]; [|discriminate].
      destruct (Hw _ H) as [H'|[H'|H']]; [discriminate|destruct (Hcw a b); contradiction|].
      destruct (writeCw_effects E p bt _ H') as [[q H'']|[H''|H'']]; try discriminate.
      injection H'' as -> ->. auto.
    + intros a b H. reflexivity.
    + eexists _, _. split; [reflexivity|]. split.
      * intros out H. destruct (Hw _ H) as [H'|[H'|H']]; [discriminate|exact (Hce out H')|].
        destruct (writeCw_effects E p bt _ H') as [[q H'']|[H''|H'']]; discriminate.
      * cbn [Path Status Result]. repeat split; close_resp.
  - assert (Hne : ty <> []) by (intro H; subst ty; discriminate).
    cbn [negb]. destruct err as [e|]; cbv beta iota; split; [reflexivity| |reflexivity|].
    all: split; [|split].
    all: try (intros a b H; apply in_app_or in H; destruct H as [H|[H|[]]]; [|discriminate];
              apply in_app_or in H; destruct H as [[H|[]]|H];
              [discriminate|destruct (Hcw a b); contradiction]).
    all: eexists _, _; split; [reflexivity|]; split;
      [intros out H; apply in_app_or in H; destruct H as [[H|[]]|H]; [discriminate|exact (Hce out H)]|].
    all: cbn [Path Status Result]; repeat split; close_resp.
Qed.

(** When the extensions cannot be retrieved, [ValidateProject] reports the
    failure with the error and does nothing else: no detection, no
    command, no settings file. *)
Theorem ValidateProject_extensions_unavailable E p u t e :
  project_path_ok E p = true -> get_extensions E = inr e ->
  ValidateProject E p u t [] =
    (Some tt, [ECheckProjectPath p; EGetExtensions;
               EPrint (marshal_response {| Status := lit "failed"; Path := p; Result := RString e |}
                       ++ [newline])]).
Proof.
  intros Hok G. unfold ValidateProject, CheckProjectPath.
  unfold cbind at 1. unfold emit at 1. cbn [app]. rewrite Hok. unfold cret at 1.
  destruct (project_info E p) as [lang bt].
  unfold checkIsExtension, GetExtensions, cbind, emit, cret. cbn [app]. rewrite G. reflexivity.
Qed.

Lemma checkIsExtension_hinted_type_witness :
  get_extensions sample_env = inl [node_ext] /\ lit "node:express" <> [] /\
  exists err effs,
    checkIsExtension sample_env (lit "proj") [] (lit "node:express") [] =
      (Some (if existsb (fun x => bytes_eqb (ProjectType x) (nth 0 (Split colon (lit "node:express")) []))
                  [node_ext]
             then nth 0 (Split colon (lit "node:express")) [] else [], err), effs) /\
    (forall q, ~ In (EPathExists q) effs).
Proof.
  split; [reflexivity|]. split; [intro H; vm_compute in H; discriminate H|].
  apply (checkIsExtension_hinted_type sample_env (lit "proj") (lit "node:express") [node_ext]).
  - reflexivity.
  - intro H; vm_compute in H; discriminate H.
Defined.

Lemma checkIsExtension_hinted_params_witness :
  In (ERunCommand (lit "proj") {| Name := lit "postProjectValidateWithType"; Command := lit "validate-typed" |}
        [(lit "type", lit "node"); (lit "subtype", lit "express")])
     (snd (checkIsExtension sample_env (lit "proj") [] (lit "node:express") [])) /\
  lit "proj" = lit "proj" /\
  Name {| Name := lit "postProjectValidateWithType"; Command := lit "validate-typed" |}
    = lit "postProjectValidateWithType".
Proof.
  assert (Hin : In (ERunCommand (lit "proj")
                      {| Name := lit "postProjectValidateWithType"; Command := lit "validate-typed" |}
                      [(lit "type", lit "node"); (lit "subtype", lit "express")])
                   (snd (checkIsExtension sample_env (lit "proj") [] (lit "node:express") [])))
    by (vm_compute; right; left; reflexivity).
  split; [exact Hin|].
  pose proof (checkIsExtension_hinted_params sample_env (lit "proj") (lit "node:express") [node_ext]
                _ _ _ eq_refl ltac:(intro H; vm_compute in H; discriminate H) Hin) as [H1 [H2 _]].
  split; [exact H1|exact H2].
Defined.

Lemma checkIsExtension_detection_witness :
  get_extensions sample_env = inl [node_ext] /\
  exists err effs,
    checkIsExtension sample_env (lit "proj") [] [] [] =
      (Some (match find (fun x => negb (bytes_eqb (Detection x) [])
                                  && path_exists sample_env (Join (lit "proj") (Detection x))) [node_ext] with
             | Some x => ProjectType x | None => [] end, err), effs) /\
    (forall q, In (EPathExists q) effs ->
       exists x, In x [node_ext] /\ Detection x <> [] /\ q = Join (lit "proj") (Detection x)) /\
    (forall pp cmd ps, In (ERunCommand pp cmd ps) effs ->
       pp = lit "proj" /\ ps = [] /\ Name cmd = lit "postProjectValidate").
Proof.
  split; [reflexivity|].
  apply (checkIsExtension_detection sample_env (lit "proj") [] [] [node_ext]).
  - reflexivity.
  - right. reflexivity.
Defined.

Lemma writeCwSettings_never_renames_witness :
  writeCwSettingsIfNotInProject sample_env (lit "proj") (lit "nodejs") [] =
    (Some tt, [EStat (Join (lit "proj") (lit ".mc-settings")); EStat (Join (lit "proj") (lit ".cw-settings"))] ++
              match stat sample_env (Join (lit "proj") (lit ".cw-settings")) with
              | Some ENOENT => [EWriteNewCwSettings (Join (lit "proj") (lit ".cw-settings")) (lit "nodejs")]
              | _ => [] end).
Proof.
  apply (writeCwSettings_never_renames sample_env (lit "proj") (lit "nodejs")).
  intros q e H. injection H as <-. reflexivity.
Defined.

Lemma ValidateProject_outcome_witness :
  project_path_ok sample_env (lit "proj") = true /\
  fst (checkIsExtension sample_env (lit "proj") [] [] []) = Some (lit "node", None) /\
  fst (ValidateProject sample_env (lit "proj") [] [] []) = Some tt.
Proof.
  assert (H1 : project_path_ok sample_env (lit "proj") = true) by reflexivity.
  assert (H2 : fst (checkIsExtension sample_env (lit "proj") [] [] []) = Some (lit "node", None))
    by (vm_compute; reflexivity).
  split; [exact H1|]. split; [exact H2|].
  pose proof (ValidateProject_outcome sample_env (lit "proj") [] [] (lit "node") None H1 H2) as H.
  cbv zeta in H. destruct (project_info sample_env (lit "proj")) as [lang bt].
  destruct (ValidateProject sample_env (lit "proj") [] [] []) as [o effs].
  exact (proj1 H).
Defined.

Lemma ValidateProject_extensions_unavailable_witness :
  project_path_ok offline_env (lit "proj") = true /\
  get_extensions offline_env = inr (lit "connection refused") /\
  ValidateProject offline_env (lit "proj") [] [] [] =
    (Some tt, [ECheckProjectPath (lit "proj"); EGetExtensions;
               EPrint (marshal_response {| Status := lit "failed"; Path := lit "proj";
                                           Result := RString (lit "connection refused") |}
                       ++ [newline])]).
Proof.
  split; [reflexivity|]. split; [reflexivity|].
  apply (ValidateProject_extensions_unavailable offline_env (lit "proj") [] [] (lit "connection refused"));
    reflexivity.
Defined.

End CliFacts.

Module DownloadFacts.
Import GoPath Cli NameFilter.

Lemma placeholder_class : Forall (fun c => in_class (bz c) = true) (lit "PROJ_NAME_PLACEHOLDER").
Proof. repeat constructor. Qed.

Lemma project_name_filter d :
  project_name d = match filter (fun c => in_class (bz c)) (Base d) with
                   | [] => lit "PROJ_NAME_PLACEHOLDER" | f => f end.
Proof.
  unfold project_name. rewrite NameFacts.replace_filter.
  destruct (filter _ (Base d)); reflexivity.
Qed.

(** [DownloadTemplate] stops before any effect when the destination is
    empty; otherwise the template is post-processed only after a
    successful download, in the destination, replacing
    [[PROJ_NAME_PLACEHOLDER]] by a non-empty name made of the bytes
    [a-zA-Z0-9._-] of the destination's last element, or by
    [PROJ_NAME_PLACEHOLDER] when there are none. *)
Theorem DownloadTemplate_project_name E d url :
  (d = [] -> DownloadTemplate E d url [] = (None, [])) /\
  forall d' pat name, In (EReplaceInFiles d' pat name) (snd (DownloadTemplate E d url [])) ->
    d' = d /\ pat = lit "[PROJ_NAME_PLACEHOLDER]" /\ download E url d = None /\
    name = match filter (fun c => in_class (bz c)) (Base d) with
           | [] => lit "PROJ_NAME_PLACEHOLDER" | f => f end /\
    name <> [] /\ Forall (fun c => in_class (bz c) = true) name.
Proof.
  split; [intros ->; reflexivity|].
  intros d' pat name. unfold DownloadTemplate, cbind, emit, cret, exit.
  destruct (bytes_eqb d []); [intros []|]. cbn [app].
  destruct (download E url d) eqn:Hdl; [intros [H|[]]; discriminate|].
  cbn [app].
  assert (Hname : forall name,
            project_name d = name ->
            name = match filter (fun c => in_class (bz c)) (Base d) with
                   | [] => lit "PROJ_NAME_PLACEHOLDER" | f => f end /\
            name <> [] /\ Forall (fun c => in_class (bz c) = true) name).
  { intros n <-. rewrite project_name_filter.
    destruct (filter (fun c => in_class (bz c)) (Base d)) as [|c f] eqn:Hf.
    - split; [reflexivity|]. split; [discriminate|exact placeholder_class].
    - split; [reflexivity|]. split; [discriminate|].
      rewrite <- Hf. apply Forall_forall. intros x Hx. apply filter_In in Hx. apply Hx. }
  destruct (replace_in_files E d _ _); cbn [snd];
    (intros [H|[H|[]]]; [discriminate|]); injection H as Hd Hp Hn;
    (split; [symmetry; exact Hd|]); (split; [symmetry; exact Hp|]); (split; [reflexivity|]);
    apply Hname; exact Hn.
Qed.

End DownloadFacts.


Module RunTrace.
Import Sync Walk Props SyncFacts RunFacts RunShape MoreProps PlainWalk.

Lemma gtb_true_iff' (a b : Z) : (a >? b) = true <-> a > b.
Proof. rewrite Z.gtb_ltb, Z.ltb_lt. lia. Qed.

(** The run of the visits of a list of records that does not panic: each
    record is listed, the modified ones are listed again and uploaded. *)
Lemma run_records c n pp pid t recs : forall s0 s1,
  run_events (visit_file c n pp pid t) (map (visit_of pp) recs) s0 = (Some tt, s1) ->
  fileList s1 = fileList s0 ++ map rec_path recs /\
  modifiedList s1 = modifiedList s0 ++ map rec_path (filter (is_modified t) recs) /\
  calls s1 = calls s0 ++ map (upload_of c pid) (filter (is_modified t) recs).
Proof.
  induction recs as [|[[[p k] m] rd] recs IH]; intros s0 s1 H.
  - cbn in H. injection H as <-. rewrite !app_nil_r. auto.
  - cbn [map visit_of run_events] in H. unfold bind in H at 1.
    rewrite visit_file_spec, slice_join in H.
    cbn [filter map is_modified].
    destruct (Z.quot m 1000000 >? t).
    + cbv zeta in H.
      match type of H with context [on_upload n ?msg] => destruct (on_upload n msg) end;
        [discriminate|].
      destruct (IH _ _ H) as [H1 [H2 H3]]. cbn [fileList modifiedList calls] in *.
      rewrite H1, H2, H3, <- !app_assoc. auto.
    + destruct (IH _ _ H) as [H1 [H2 H3]]. cbn [fileList modifiedList calls] in *.
      rewrite H1, H2, H3, <- !app_assoc. auto.
Qed.

Lemma run_events_tree c n pp pid t root s0 s1 :
  plain_path pp = true -> names_ok root = true ->
  run_events (visit_file c n pp pid t) (events pp root) s0 = (Some tt, s1) ->
  run_events (visit_file c n pp pid t) (map (visit_of pp) (tree_records root)) s0 = (Some tt, s1).
Proof.
  intros Hpp Hn H. destruct root as [nm k m rd|nm ls|nm].
  - cbn in H. unfold bind in H. rewrite visit_file_root in H. discriminate.
  - rewrite <- root_events_records by (assumption || discriminate).
    rewrite (run_events_complete _ _ _ _ H). exact H.
  - cbn in H. discriminate.
Qed.

(** For a project path in plain form and directory listings of plain
    names, a sync run that finishes lists every non-directory entry of the tree
    in fileList, lists in modifiedList and uploads, in walk order, exactly the entries
    modified after the cursor, then sends the end call with these two
    lists and the cursor; nothing else is called. *)
Theorem SyncProject_trace c n pp pid t root s s1 :
  plain_path pp = true -> names_ok root = true ->
  SyncProject c n pp pid t root s = (Some tt, s1) ->
  fileList s1 = nondir_paths root /\
  modifiedList s1 = map rec_path (modified_records root t) /\
  calls s1 = calls s ++ map (upload_of c pid) (modified_records root t) ++
             [CUploadEnd pid {| FileList := nondir_paths root;
                                ModifiedList := map rec_path (modified_records root t);
                                TimeStamp := t |}].
Proof.
  intros Hpp Hn. rewrite SyncProject_spec.
  destruct (run_events _ _ (fresh s)) as [[[]|] s2] eqn:Hr; [|discriminate].
  intro H. apply run_events_tree in Hr; [|assumption|assumption]. apply run_records in Hr.
  destruct Hr as [H1 [H2 H3]]. cbn [fresh fileList modifiedList calls app] in H1, H2, H3.
  pose proof (completeUpload_calls n pid (fileList s2) (modifiedList s2) t s2) as Hc.
  rewrite H in Hc. cbn [snd] in Hc. destruct Hc as [Hc1 [Hc2 Hc3]].
  unfold nondir_paths, modified_records.
  rewrite Hc2, Hc3, Hc1, H1, H2, H3, app_assoc. auto.
Qed.

(** For a project path in plain form and directory listings of plain
    names, a bind whose begin call returns a project id, and that finishes,
    issues the begin call, uploads every non-directory entry modified
    after time 0 in walk order, then the end call; fileList and
    modifiedList are those of the tree. *)
Theorem BindProject_trace c n pp nm l bt root s s1 code pid :
  plain_path pp = true -> names_ok root = true ->
  on_start n = (Status code, BodyProjectID pid) ->
  BindProject c n pp nm l bt root s = (Some tt, s1) ->
  fileList s1 = nondir_paths root /\
  modifiedList s1 = map rec_path (modified_records root 0) /\
  calls s1 = calls s ++ [CBegin {| Language := l; Name := nm; ProjectType := bt; Path := pp |}] ++
             map (upload_of c pid) (modified_records root 0) ++ [CBindEnd pid {| ProjectID := pid |}].
Proof.
  intros Hpp Hn Hs. rewrite BindProject_spec. cbv zeta. rewrite Hs.
  match goal with |- context [run_events ?cb ?evs ?s0] =>
    destruct (run_events cb evs s0) as [[[]|] s2] eqn:Hr; [|discriminate] end.
  intro H. apply run_events_tree in Hr; [|assumption|assumption]. apply run_records in Hr.
  destruct Hr as [H1 [H2 H3]]. cbn [fresh begun fileList modifiedList calls app] in H1, H2, H3.
  pose proof (completeRemotebind_calls n pid s2) as Hc.
  rewrite H in Hc. cbn [snd] in Hc. destruct Hc as [Hc1 [Hc2 Hc3]].
  unfold nondir_paths, modified_records.
  rewrite Hc2, Hc3, Hc1, H1, H2, H3, <- !app_assoc. auto.
Qed.

(** A project root that is a file, or that vanishes, makes a sync run
    abort in the walk, before any upload and without the end call; a
    root directory that cannot be listed gives a run with empty lists
    that still sends the end call. *)
Theorem SyncProject_root_edge c n pp pid t s :
  (forall nm k m rd, SyncProject c n pp pid t (File nm k m rd) s = (None, fresh s)) /\
  (forall nm, SyncProject c n pp pid t (Gone nm) s = (None, fresh s)) /\
  (forall nm, let '(o, s1) := SyncProject c n pp pid t (Dir nm None) s in
              o = match on_end n with NetErr => None | Status _ => Some tt end /\
              fileList s1 = [] /\ modifiedList s1 = [] /\
              calls s1 = calls s ++ [CUploadEnd pid {| FileList := []; ModifiedList := [];
                                                      TimeStamp := t |}]).
Proof.
  split; [|split].
  - intros nm k m rd. rewrite SyncProject_spec. cbn [events run_events].
    unfold bind. rewrite visit_file_root. reflexivity.
  - intro nm. rewrite SyncProject_spec. reflexivity.
  - intro nm. rewrite SyncProject_spec. cbn [events run_events ret].
    unfold completeUpload, bind, issue. destruct (on_end n); cbn; auto.
Qed.


Lemma app_one_split {A} (l pre post : list A) (x y : A) :
  l ++ [x] = pre ++ y :: post -> (post = [] /\ x = y /\ l = pre) \/ exists post', l = pre ++ y :: post'.
Proof.
  revert pre. induction l as [|a l IH]; intros pre H.
  - destruct pre as [|b pre]; cbn in H.
    + injection H as -> ->. left. auto.
    + injection H as _ H. destruct pre; discriminate.
  - destruct pre as [|b pre]; cbn in H.
    + injection H as -> _. right. eexists. reflexivity.
    + injection H as -> H. destruct (IH pre H) as [[-> [-> ->]]|[p' ->]].
      * left. auto.
      * right. exists p'. reflexivity.
Qed.

Lemma neterr_step n o' s s' x :
  neterr_last n (Some tt) s -> calls s' = calls s ++ [x] ->
  (forall pid m, x = CUpload pid m -> on_upload n m = NetErr -> o' = None) ->
  neterr_last n o' s'.
Proof.
  intros Hs Hc Hx pre pid m post Heq Hn. rewrite Hc in Heq.
  destruct (app_one_split _ _ _ _ _ Heq) as [[-> [Hxy _]]|[p' Hp]].
  - split; [reflexivity|]. exact (Hx pid m Hxy Hn).
  - destruct (Hs pre pid m p' Hp Hn) as [_ Hd]. discriminate.
Qed.

Lemma neterr_same n o' s s' :
  neterr_last n (Some tt) s -> calls s' = calls s -> neterr_last n o' s'.
Proof.
  intros Hs Hc pre pid m post Heq Hn. rewrite Hc in Heq.
  destruct (Hs pre pid m post Heq Hn) as [_ Hd]. discriminate.
Qed.

Lemma neterr_run c n pp pid t evs : forall s0,
  neterr_last n (Some tt) s0 ->
  let '(o, s1) := run_events (visit_file c n pp pid t) evs s0 in neterr_last n o s1.
Proof.
  induction evs as [|[p m rd|] evs IH]; intros s0 H0; cbn [run_events].
  - exact H0.
  - unfold bind at 1. rewrite visit_file_spec.
    destruct (slice_from p _) as [rel|]; [|exact (neterr_same _ _ _ _ H0 eq_refl)].
    destruct (Z.quot m 1000000 >? t); cbv zeta.
    + match goal with |- context [on_upload n ?msg] => destruct (on_upload n msg) eqn:Hu end.
      * eapply neterr_step; [exact H0|reflexivity|]. intros; reflexivity.
      * apply IH. eapply neterr_step; [exact H0|reflexivity|].
        intros pid' m' Hx Hn. injection Hx as _ <-. rewrite Hu in Hn. discriminate.
    + apply IH. exact (neterr_same _ _ _ _ H0 eq_refl).
  - exact (neterr_same _ _ _ _ H0 eq_refl).
Qed.

Lemma neterr_nil n s : calls s = [] -> neterr_last n (Some tt) s.
Proof. intros Hc pre pid m post Heq. rewrite Hc in Heq. destruct pre; discriminate. Qed.

Lemma neterr_begin n s req : calls s = [CBegin req] -> neterr_last n (Some tt) s.
Proof.
  intros Hc pre pid m post Heq. rewrite Hc in Heq.
  destruct pre as [|b [|b' pre]]; cbn in Heq; try discriminate; injection Heq as _ H; discriminate.
Qed.

(** A network error on an upload ends a run from the initial state right
    there: in a sync run or a bind run, an upload that got no HTTP
    response is the last call, and the run aborted. *)
Theorem neterr_upload_is_last c n pp pid t nm l bt root :
  (let '(o, s1) := SyncProject c n pp pid t root init in
   forall pre pid' m post, calls s1 = pre ++ CUpload pid' m :: post ->
   on_upload n m = NetErr -> post = [] /\ o = None) /\
  (let '(o, s1) := BindProject c n pp nm l bt root init in
   forall pre pid' m post, calls s1 = pre ++ CUpload pid' m :: post ->
   on_upload n m = NetErr -> post = [] /\ o = None).
Proof.
  split.
  - rewrite SyncProject_spec.
    pose proof (neterr_run c n pp pid t (events pp root) (fresh init) (neterr_nil n (fresh init) eq_refl)) as H.
    destruct (run_events _ _ (fresh init)) as [[[]|] s2]; [|exact H].
    unfold completeUpload, bind, issue.
    destruct (on_end n); (eapply neterr_step; [exact H|reflexivity|]); intros ? ? Hx; discriminate.
  - rewrite BindProject_spec. cbv zeta.
    set (req := {| Language := l; Name := nm; ProjectType := bt; Path := pp |}).
    assert (Hb : neterr_last n (Some tt) (begun init req)) by (apply (neterr_begin n _ req); reflexivity).
    assert (Hf : neterr_last n (Some tt) (fresh (begun init req))) by (apply (neterr_begin n _ req); reflexivity).
    destruct (on_start n) as [[|code] [| |pid']].
    1-3: exact Hb.
    1-2: intros pre pid' m post Heq Hn; split; [|reflexivity];
         destruct (Hb pre pid' m post Heq Hn) as [_ Hd]; discriminate.
    pose proof (neterr_run c n pp pid' 0 (events pp root) _ Hf) as H.
    match goal with |- context [run_events ?cb ?evs ?s0] =>
      destruct (run_events cb evs s0) as [[[]|] s2] end; [|exact H].
    unfold completeRemotebind, bind, issue.
    destruct (on_end n); (eapply neterr_step; [exact H|reflexivity|]); intros ? ? Hx; discriminate.
Qed.

Lemma SyncProject_trace_witness :
  let s1 := snd (SyncProject Zlib.stored ok_net "proj" "p" 0 two_files init) in
  plain_path "proj" = true /\ names_ok two_files = true /\
  SyncProject Zlib.stored ok_net "proj" "p" 0 two_files init = (Some tt, s1) /\
  fileList s1 = nondir_paths two_files /\
  modifiedList s1 = map rec_path (modified_records two_files 0).
Proof.
  intro s1.
  assert (H : SyncProject Zlib.stored ok_net "proj" "p" 0 two_files init = (Some tt, s1))
    by (subst s1; vm_compute; reflexivity).
  assert (Hp : plain_path "proj" = true) by (vm_compute; reflexivity).
  assert (Hn : names_ok two_files = true) by (vm_compute; reflexivity).
  split; [exact Hp|]. split; [exact Hn|]. split; [exact H|].
  destruct (SyncProject_trace Zlib.stored ok_net "proj" "p" 0 two_files init s1 Hp Hn H) as [H1 [H2 _]].
  split; [exact H1|exact H2].
Defined.

Lemma BindProject_trace_witness :
  let s1 := snd (BindProject Zlib.stored ok_net "proj" "app" "nodejs" "nodejs" two_files init) in
  plain_path "proj" = true /\ names_ok two_files = true /\
  on_start ok_net = (Status 200, BodyProjectID "p") /\
  BindProject Zlib.stored ok_net "proj" "app" "nodejs" "nodejs" two_files init = (Some tt, s1) /\
  fileList s1 = nondir_paths two_files /\
  modifiedList s1 = map rec_path (modified_records two_files 0).
Proof.
  intro s1.
  assert (H : BindProject Zlib.stored ok_net "proj" "app" "nodejs" "nodejs" two_files init = (Some tt, s1))
    by (subst s1; vm_compute; reflexivity).
  assert (Hp : plain_path "proj" = true) by (vm_compute; reflexivity).
  assert (Hn : names_ok two_files = true) by (vm_compute; reflexivity).
  split; [exact Hp|]. split; [exact Hn|]. split; [reflexivity|]. split; [exact H|].
  destruct (BindProject_trace Zlib.stored ok_net "proj" "app" "nodejs" "nodejs" two_files init s1 200 "p"
              Hp Hn eq_refl H) as [H1 [H2 _]].
  split; [exact H1|exact H2].
Defined.

End RunTrace.

Module BodyFacts.
Import Sync MoreProps.


Lemma enc_in k : In (Base64.enc k) b64_alphabet.
Proof.
  unfold Base64.enc, b64_alphabet. rewrite SyncFacts.list_ascii_of_string_app. apply in_or_app. left.
  destruct (nth_in_or_default (Z.to_nat k) (list_ascii_of_string Base64.encodeStd) "A"%char) as [H|H];
    [exact H|rewrite H; left; reflexivity].
Qed.

Lemma pad_in : In Base64.StdPadding b64_alphabet.
Proof.
  unfold b64_alphabet. rewrite SyncFacts.list_ascii_of_string_app. apply in_or_app. right. left. reflexivity.
Qed.

Ltac b64_chars :=
  repeat (apply Forall_cons; [first [apply enc_in|apply pad_in]|]); apply Forall_nil.

Lemma encode_alphabet l : Forall (fun a => In a b64_alphabet) (Base64.encode l).
Proof.
  induction l as [[|b0 [|b1 [|b2 l']]] IH] using (induction_ltof1 _ (@List.length byte)).
  - constructor.
  - cbn [Base64.encode]. b64_chars.
  - cbn [Base64.encode]. b64_chars.
  - cbn [Base64.encode]. apply Forall_app. split.
    + b64_chars.
    + apply IH. unfold ltof. cbn. lia.
Qed.

Lemma alphabet_plain :
  forallb (fun a => (bz (byte_of_ascii a) <? Utf8.RuneSelf) && Json.htmlSafe (bz (byte_of_ascii a)))
          b64_alphabet = true.
Proof. vm_compute. reflexivity. Qed.

Lemma string_body_ascii f c rest :
  (bz c <? Utf8.RuneSelf) = true -> Json.htmlSafe (bz c) = true ->
  Json.string_body (S f) (c :: rest) = c :: Json.string_body f rest.
Proof. intros H1 H2. unfold Json.string_body at 1. rewrite H1, H2. reflexivity. Qed.

Lemma string_body_plain f l :
  (List.length l <= f)%nat -> Forall (fun a => In a b64_alphabet) l ->
  Json.string_body f (map byte_of_ascii l) = map byte_of_ascii l.
Proof.
  revert l. induction f as [|f IH]; intros l Hl Ha.
  - destruct l; [reflexivity|cbn in Hl; lia].
  - destruct l as [|a l]; [reflexivity|]. inversion Ha as [|? ? Hin Hrest]; subst.
    pose proof (proj1 (forallb_forall _ _) alphabet_plain a Hin) as Hp.
    apply andb_prop in Hp. destruct Hp as [H1 H2].
    rewrite map_cons, (string_body_ascii f _ _ H1 H2), IH; [reflexivity| |exact Hrest].
    simpl List.length in Hl. lia.
Qed.

(** The base64 text of an upload message is sent as it is: its JSON
    encoding in the request body is the text between quotes, with no
    escape, whatever the content and the compressor. *)
Theorem upload_body_msg c rel d :
  Json.Marshal_string (lit (Codec.encode c d)) = [Json.quote] ++ lit (Codec.encode c d) ++ [Json.quote] /\
  Body.upload_body {| IsDirectory := false; RelativePath := rel; Message := Codec.encode c d |} =
    lit "{" ++ Cli.field "isDirectory" (lit "false") ++ lit ","
    ++ Cli.field "path" (Json.Marshal_string (lit rel)) ++ lit ","
    ++ Cli.field "msg" ([Json.quote] ++ lit (Codec.encode c d) ++ [Json.quote]) ++ lit "}" ++ [Cli.newline].
Proof.
  assert (H : Json.Marshal_string (lit (Codec.encode c d)) =
              [Json.quote] ++ lit (Codec.encode c d) ++ [Json.quote]).
  { unfold Codec.encode, Base64.EncodeToString, lit, list_byte_of_string, Json.Marshal_string.
    rewrite list_ascii_of_string_of_list_ascii, length_map.
    rewrite string_body_plain; [reflexivity|lia|apply encode_alphabet]. }
  split; [exact H|]. unfold Body.upload_body. cbn [IsDirectory RelativePath Message].
  rewrite H. reflexivity.
Qed.

End BodyFacts.


